(** * MiniScape: movement synchronisation and remote-entity reconciliation

    A shallow embedding of the client code that moves the local player,
    guards its speed, throttles outbound position reports and applies
    inbound [playerMoved] events:

    - [Canvas]  : src/frontend/components/GameCanvas.tsx
    - [Legacy]  : src/components/GameCanvas.tsx
    - [Hook]    : src/frontend/hooks/usePlayerMovement.ts

    Numbers.  The source computes with JavaScript numbers.  They are
    modelled here by real numbers: [Math.sqrt], [Math.sin], [Math.cos],
    [Math.max], [Math.min], [Math.abs] and [Math.pow] are their
    mathematical counterparts and the rounding of binary64 arithmetic is
    not modelled, nor are NaN and the infinities.  Where a property
    turns on the rounding or on NaN, the function is translated a second
    time, over binary64 numbers, in [Binary64]: the speed guard and the
    known-player branch of [playerMoved].

    State.  The React refs of the component are the fields of one record,
    [Refs], threaded explicitly through every function.  The three.js
    scene graph, the CSS2D labels and the console belong to the
    rendering collaborator and are left out: a mesh is its position, its
    yaw and its [userData]. *)

From Stdlib Require Import Reals Lra Lia Sorted.
From Corelib Require PrimFloat.
From stdpp Require Import gmap strings list.

Local Open Scope R_scope.

(** ** JavaScript numbers *)

Module JS.

Definition lt (x y : R) : bool := if Rlt_dec x y then true else false.
Definition gt (x y : R) : bool := if Rlt_dec y x then true else false.
Definition le (x y : R) : bool := if Rle_dec x y then true else false.
Definition ge (x y : R) : bool := if Rle_dec y x then true else false.
(** [x !== y] *)
Definition neq (x y : R) : bool := if Req_dec_T x y then false else true.

Definition Math_max (a b : R) : R := Rmax a b.
Definition Math_min (a b : R) : R := Rmin a b.
Definition Math_abs (a : R) : R := Rabs a.
Definition Math_sqrt (a : R) : R := sqrt a.
Definition Math_pow (a : R) (n : nat) : R := a ^ n.

(** Rounding towards zero, as the quotient of [%] does. *)
Definition trunc (x : R) : R :=
  if Rle_dec 0 x then IZR (Int_part x) else - IZR (Int_part (- x)).

(** [a % b]: the remainder has the sign of the dividend. *)
Definition rem (a b : R) : R := a - b * trunc (a / b).

(** [Math.atan2 y x] *)
Definition Math_atan2 (y x : R) : R :=
  if Rlt_dec 0 x then atan (y / x)
  else if Rlt_dec x 0 then
      (if Rle_dec 0 y then atan (y / x) + PI else atan (y / x) - PI)
  else if Rlt_dec 0 y then PI / 2
  else if Rlt_dec y 0 then - (PI / 2)
  else 0.

(** The string that [socket.id] contributes to a concatenation when the
    socket has no id yet. *)
Definition str (s : option string) : string :=
  match s with Some v => v | None => "undefined" end.

(** [a[i]] for an integer [i]: [undefined] below 0 and from [a.length]. *)
Definition index {A} (a : list A) (i : Z) : option A :=
  if (i <? 0)%Z then None else a !! Z.to_nat i.

(** [a.length] *)
Definition len {A} (a : list A) : Z := Z.of_nat (List.length a).

End JS.

(** ** three.js vectors *)

Record Vector3 := Vec3 { vx : R; vy : R; vz : R }.

Module THREE.

Definition add (a b : Vector3) : Vector3 :=
  Vec3 (vx a + vx b) (vy a + vy b) (vz a + vz b).
Definition sub (a b : Vector3) : Vector3 :=
  Vec3 (vx a - vx b) (vy a - vy b) (vz a - vz b).
Definition multiplyScalar (a : Vector3) (k : R) : Vector3 :=
  Vec3 (vx a * k) (vy a * k) (vz a * k).
Definition divideScalar (a : Vector3) (k : R) : Vector3 :=
  multiplyScalar a (1 / k).
Definition length (a : Vector3) : R :=
  JS.Math_sqrt (vx a * vx a + vy a * vy a + vz a * vz a).
(** [divideScalar(this.length() || 1)] *)
Definition normalize (a : Vector3) : Vector3 :=
  divideScalar a (if JS.neq (length a) 0 then length a else 1).

End THREE.

(** ** Data model *)

Record Bounds := { minX : R; maxX : R; minZ : R; maxZ : R }.

Record Mesh := {
  position : Vector3;
  rotation_y : R;
  userData_playerId : option string;
  userData_playerName : option string
}.

(** [Player] of types/player, with the fields the handlers read. *)
Record Player := {
  p_id : string; p_name : string;
  p_x : R; p_y : R; p_z : R;
  p_userId : string
}.

(** Payload of a [playerMoved] event. *)
Record MoveData := { d_id : string; d_x : R; d_y : R; d_z : R }.

(** An entry of [positionHistory]. *)
Record Sample := { s_x : R; s_z : R; s_time : R }.

(** [keysPressed.current] *)
Record Keys := {
  k_w : bool; k_a : bool; k_s : bool; k_d : bool;
  k_ArrowUp : bool; k_ArrowLeft : bool; k_ArrowDown : bool; k_ArrowRight : bool
}.

(** What a handler hands to the socket. *)
Inductive Emit :=
| EmitPlayerMove (p : Vector3)
| EmitGetPlayerData (id : string).

(** The refs and state of the [GameCanvas] component. *)
Record Refs := mkRefs {
  playerRef : option Mesh;
  playersRef : gmap string Mesh;
  lastSentPosition : Vector3;
  lastSendTime : R;
  movementChanged : bool;
  positionHistory : list Sample;
  isJumping : bool;
  jumpVelocity : R;
  lastUpdateTime : R;
  currentZone : string;
  isConnected : bool
}.

Definition set_playerRef (v : option Mesh) (s : Refs) : Refs :=
  mkRefs v (playersRef s) (lastSentPosition s) (lastSendTime s)
    (movementChanged s) (positionHistory s) (isJumping s) (jumpVelocity s)
    (lastUpdateTime s) (currentZone s) (isConnected s).
Definition set_playersRef (v : gmap string Mesh) (s : Refs) : Refs :=
  mkRefs (playerRef s) v (lastSentPosition s) (lastSendTime s)
    (movementChanged s) (positionHistory s) (isJumping s) (jumpVelocity s)
    (lastUpdateTime s) (currentZone s) (isConnected s).
Definition set_lastSent (p : Vector3) (t : R) (s : Refs) : Refs :=
  mkRefs (playerRef s) (playersRef s) p t
    (movementChanged s) (positionHistory s) (isJumping s) (jumpVelocity s)
    (lastUpdateTime s) (currentZone s) (isConnected s).
Definition set_movementChanged (v : bool) (s : Refs) : Refs :=
  mkRefs (playerRef s) (playersRef s) (lastSentPosition s) (lastSendTime s)
    v (positionHistory s) (isJumping s) (jumpVelocity s)
    (lastUpdateTime s) (currentZone s) (isConnected s).
Definition set_positionHistory (v : list Sample) (s : Refs) : Refs :=
  mkRefs (playerRef s) (playersRef s) (lastSentPosition s) (lastSendTime s)
    (movementChanged s) v (isJumping s) (jumpVelocity s)
    (lastUpdateTime s) (currentZone s) (isConnected s).
Definition set_jump (j : bool) (v : R) (s : Refs) : Refs :=
  mkRefs (playerRef s) (playersRef s) (lastSentPosition s) (lastSendTime s)
    (movementChanged s) (positionHistory s) j v
    (lastUpdateTime s) (currentZone s) (isConnected s).
Definition set_lastUpdateTime (v : R) (s : Refs) : Refs :=
  mkRefs (playerRef s) (playersRef s) (lastSentPosition s) (lastSendTime s)
    (movementChanged s) (positionHistory s) (isJumping s) (jumpVelocity s)
    v (currentZone s) (isConnected s).
Definition set_currentZone (v : string) (s : Refs) : Refs :=
  mkRefs (playerRef s) (playersRef s) (lastSentPosition s) (lastSendTime s)
    (movementChanged s) (positionHistory s) (isJumping s) (jumpVelocity s)
    (lastUpdateTime s) v (isConnected s).
Definition set_isConnected (v : bool) (s : Refs) : Refs :=
  mkRefs (playerRef s) (playersRef s) (lastSentPosition s) (lastSendTime s)
    (movementChanged s) (positionHistory s) (isJumping s) (jumpVelocity s)
    (lastUpdateTime s) (currentZone s) v.

Definition set_position (p : Vector3) (m : Mesh) : Mesh :=
  {| position := p; rotation_y := rotation_y m;
     userData_playerId := userData_playerId m;
     userData_playerName := userData_playerName m |}.
Definition set_rotation_y (r : R) (m : Mesh) : Mesh :=
  {| position := position m; rotation_y := r;
     userData_playerId := userData_playerId m;
     userData_playerName := userData_playerName m |}.

(** ** Constants and code common to both [GameCanvas.tsx] files *)

Definition MOVEMENT_SPEED : R := 0.15.
Definition WORLD_BOUNDS : Bounds :=
  {| minX := -50; maxX := 50; minZ := -50; maxZ := 50 |}.
Definition SEND_INTERVAL : R := 100.
Definition MAX_HISTORY_LENGTH : nat := 5.
Definition ANOMALOUS_SPEED_THRESHOLD : R := 1.0.
Definition JUMP_FORCE : R := 0.3.
Definition GRAVITY : R := 0.015.
Definition LARGE_MOVEMENT_THRESHOLD : R := 5.

(** [Math.max(b.minX, Math.min(b.maxX, v))] and its z twin: the clamping
    expression the source repeats at every use. *)
Definition boundX (b : Bounds) (v : R) : R :=
  JS.Math_max (minX b) (JS.Math_min (maxX b) v).
Definition boundZ (b : Bounds) (v : R) : R :=
  JS.Math_max (minZ b) (JS.Math_min (maxZ b) v).

(** The mesh and the sample satisfy [WORLD_BOUNDS]. *)
Definition inBounds (b : Bounds) (x z : R) : Prop :=
  minX b <= x <= maxX b /\ minZ b <= z <= maxZ b.

(** The initial refs: the player mesh stands at (0, 1, 0). *)
Definition initialMesh : Mesh :=
  {| position := Vec3 0 1 0; rotation_y := 0;
     userData_playerId := None; userData_playerName := None |}.
Definition initialRefs : Refs :=
  mkRefs (Some initialMesh) ∅ (Vec3 0 1 0) 0 false [] false 0 0
    "Lumbridge" false.

(** *** [detectAnomalousMovement]

    The same text in both files.  Reading a field of [latest] or
    [previous] when the history is shorter than two samples raises a
    [TypeError]: the result is then [None]. *)
Definition detectAnomalousMovement (s : Refs) : option Refs :=
  let history := positionHistory s in
  match JS.index history (JS.len history - 1),
        JS.index history (JS.len history - 2) with
  | Some latest, Some previous =>
    let distance := JS.Math_sqrt (
      JS.Math_pow (s_x latest - s_x previous) 2 +
      JS.Math_pow (s_z latest - s_z previous) 2) in
    let timeDiff := (s_time latest - s_time previous) / 1000 in
    if JS.gt timeDiff 0 then
      let speed := distance / timeDiff in
      match playerRef s with
      | Some player =>
        if JS.gt speed ANOMALOUS_SPEED_THRESHOLD then
          let maxAllowedDistance := MOVEMENT_SPEED * 2 in
          if JS.gt distance maxAllowedDistance then
            let dirX := (s_x latest - s_x previous) / distance in
            let dirZ := (s_z latest - s_z previous) / distance in
            let cappedX := s_x previous + (dirX * maxAllowedDistance) in
            let cappedZ := s_z previous + (dirZ * maxAllowedDistance) in
            let boundedX := boundX WORLD_BOUNDS cappedX in
            let boundedZ := boundZ WORLD_BOUNDS cappedZ in
            let player' :=
              set_position (Vec3 boundedX (vy (position player)) boundedZ)
                player in
            (* in range: both reads above succeeded *)
            let history' :=
              <[ Z.to_nat (JS.len history - 1) :=
                 {| s_x := boundedX; s_z := boundedZ;
                    s_time := s_time latest |} ]> history in
            Some (set_positionHistory history'
                    (set_playerRef (Some player') s))
          else Some s
        else Some s
      | None => Some s
      end
    else Some s
  | _, _ => None
  end.

(** *** [updatePlayerZone]

    The same text in both files.  [newZone] is the local of that name. *)
Definition newZone (x z : R) : string :=
  if JS.lt x (-10) && JS.lt z (-10) then "Barbarian Village"
  else if JS.gt x 25 && JS.lt z 0 then "Fishing Spot"
  else if JS.gt x 0 && JS.gt z 25 then "Grand Exchange"
  else if JS.lt x (-30) || JS.lt z (-30) || JS.gt x 30 || JS.gt z 30
       then "Wilderness"
  else "Lumbridge".

Definition updatePlayerZone (x z : R) (s : Refs) : Refs :=
  if bool_decide (newZone x z <> currentZone s)
  then set_currentZone (newZone x z) s
  else s.

(** *** The known-player branch of [socket.on('playerMoved')]

    The body of [if (playerMesh) { ... }], the same text in both files. *)
Definition moveKnownPlayer (data : MoveData) (playerMesh : Mesh) : Mesh :=
  let validX := boundX WORLD_BOUNDS (d_x data) in
  let validZ := boundZ WORLD_BOUNDS (d_z data) in
  let currentPos := position playerMesh in
  let distanceToNewPos := JS.Math_sqrt (
    JS.Math_pow (validX - vx currentPos) 2 +
    JS.Math_pow (validZ - vz currentPos) 2) in
  if JS.gt distanceToNewPos LARGE_MOVEMENT_THRESHOLD then
    let midX := vx currentPos + (validX - vx currentPos) * 0.5 in
    let midZ := vz currentPos + (validZ - vz currentPos) * 0.5 in
    set_position (Vec3 midX (d_y data) midZ) playerMesh
  else
    set_position (Vec3 validX (d_y data) validZ) playerMesh.

(** What [await getSocket()] yields inside [sendPositionUpdate]. *)
Inductive SocketResult :=
| SockThrows
| SockNull
| Sock (connected : bool).

(** ** src/frontend/components/GameCanvas.tsx *)

Module Canvas.

(** [updatePlayerMovement]; [now] is what [Date.now()] returns. *)
Definition updatePlayerMovement (keys : Keys) (cameraAngle now : R)
    (s : Refs) : Refs :=
  match playerRef s with
  | None => s
  | Some player =>
    let s := set_lastUpdateTime now s in
    let forward := Vec3 (sin cameraAngle) 0 (cos cameraAngle) in
    let right :=
      Vec3 (sin (cameraAngle + PI / 2)) 0 (cos (cameraAngle + PI / 2)) in
    let movement := Vec3 0 0 0 in
    let movement :=
      if k_w keys || k_ArrowUp keys
      then THREE.sub movement forward else movement in
    let movement :=
      if k_s keys || k_ArrowDown keys
      then THREE.add movement forward else movement in
    let movement :=
      if k_d keys || k_ArrowRight keys
      then THREE.add movement right else movement in
    let movement :=
      if k_a keys || k_ArrowLeft keys
      then THREE.sub movement right else movement in
    let '(movement, player) :=
      if JS.gt (THREE.length movement) 0 then
        let movement := THREE.normalize movement in
        let angle := JS.Math_atan2 (vx movement) (vz movement) in
        (movement, set_rotation_y angle player)
      else (movement, player) in
    let movement := THREE.multiplyScalar movement MOVEMENT_SPEED in
    let pos := position player in
    let pos := Vec3 (vx pos + vx movement) (vy pos) (vz pos + vz movement) in
    if isJumping s then
      let y := vy pos + jumpVelocity s in
      let v := jumpVelocity s - GRAVITY in
      if JS.le y 1 then
        set_jump false 0
          (set_playerRef
             (Some (set_position (Vec3 (vx pos) 1 (vz pos)) player)) s)
      else
        set_jump true v
          (set_playerRef
             (Some (set_position (Vec3 (vx pos) y (vz pos)) player)) s)
    else
      set_playerRef (Some (set_position pos player)) s
  end.

(** [sendPositionUpdate].  [now] is [Date.now()], [ready] is
    [isSocketReady()] and [sock] is what [await getSocket()] yields; the
    continuation of the [await] runs before any other handler. *)
Definition sendPositionUpdate (now : R) (ready : bool) (sock : SocketResult)
    (s : Refs) : Refs * list Emit :=
  match playerRef s with
  | None => (s, [])
  | Some player =>
    if negb (isConnected s) then (s, [])
    else if negb ready then (s, [])
    else if negb (movementChanged s) then (s, [])
    else
      let '(s, out) :=
        if JS.ge (now - lastSendTime s) SEND_INTERVAL then
          let position := position player in
          let dx := JS.Math_abs (vx position - vx (lastSentPosition s)) in
          let dz := JS.Math_abs (vz position - vz (lastSentPosition s)) in
          if JS.gt dx 0.01 || JS.gt dz 0.01 then
            let validX := boundX WORLD_BOUNDS (vx position) in
            let validZ := boundZ WORLD_BOUNDS (vz position) in
            let validatedPosition := Vec3 validX (vy position) validZ in
            match sock with
            | Sock true =>
              (set_lastSent validatedPosition now s,
               [EmitPlayerMove validatedPosition])
            | Sock false | SockNull => (set_isConnected false s, [])
            | SockThrows => (s, [])
            end
          else (s, [])
        else (s, []) in
      (set_movementChanged false s, out)
  end.

(** [data.id === socket.id || data.id === 'TEST-' + socket.id] *)
Definition isOwnId (socket_id : option string) (id : string) : bool :=
  bool_decide (Some id = socket_id)
  || bool_decide (id = "TEST-" +:+ JS.str socket_id).

(** [createPlayerMesh]: the registry entry of [player.id] is replaced by a
    fresh mesh at the position the player record carries. *)
Definition createPlayerMesh (socket_id : option string) (player : Player)
    (s : Refs) : Refs * option Mesh :=
  if bool_decide (socket_id = Some (p_id player)) then (s, None)
  else
    let players := delete (p_id player) (playersRef s) in
    let otherPlayerMesh :=
      {| position := Vec3 (p_x player) (p_y player) (p_z player);
         rotation_y := 0;
         userData_playerId := Some (p_id player);
         userData_playerName := Some (p_name player) |} in
    (set_playersRef (<[ p_id player := otherPlayerMesh ]> players) s,
     Some otherPlayerMesh).

(** The object literal built when the server has no data for the id. *)
Definition minimalPlayer (data : MoveData) : Player :=
  {| p_id := d_id data;
     p_name := "Player-" +:+ String.substring 0 4 (d_id data);
     p_x := d_x data; p_y := d_y data; p_z := d_z data;
     p_userId := "" |}.

(** [socket.on('playerMoved')], up to the request it may send. *)
Definition playerMoved (socket_id : option string) (data : MoveData)
    (s : Refs) : Refs * list Emit :=
  if isOwnId socket_id (d_id data) then (s, [])
  else
    match playersRef s !! d_id data with
    | Some playerMesh =>
      (set_playersRef
         (<[ d_id data := moveKnownPlayer data playerMesh ]> (playersRef s)) s,
       [])
    | None => (s, [EmitGetPlayerData (d_id data)])
    end.

(** The acknowledgement callback of that request: [playerData] is the
    server's answer, [None] for a falsy one; [s] is the state when the
    answer arrives. *)
Definition getPlayerDataCallback (socket_id : option string)
    (data : MoveData) (playerData : option Player) (s : Refs) : Refs :=
  match playerData with
  | Some pd => fst (createPlayerMesh socket_id pd s)
  | None => fst (createPlayerMesh socket_id (minimalPlayer data) s)
  end.

End Canvas.

(** ** src/components/GameCanvas.tsx *)

Module Legacy.

(** [updatePlayerMovement]; [delta] is [clockRef.current.getDelta()] and
    [now] is [Date.now()].  [None] stands for an uncaught [TypeError]. *)
Definition updatePlayerMovement (keys : Keys) (delta now : R)
    (s : Refs) : option Refs :=
  match playerRef s with
  | None => Some s
  | Some player =>
    let moveX := 0 in
    let moveZ := 0 in
    let moveZ :=
      if k_w keys || k_ArrowUp keys then moveZ - MOVEMENT_SPEED else moveZ in
    let moveX :=
      if k_a keys || k_ArrowLeft keys then moveX - MOVEMENT_SPEED else moveX in
    let moveZ :=
      if k_s keys || k_ArrowDown keys then moveZ + MOVEMENT_SPEED else moveZ in
    let moveX :=
      if k_d keys || k_ArrowRight keys then moveX + MOVEMENT_SPEED else moveX in
    if JS.neq moveX 0 || JS.neq moveZ 0 then
      let newX :=
        boundX WORLD_BOUNDS (vx (position player) + (moveX * delta * 60)) in
      let newZ :=
        boundZ WORLD_BOUNDS (vz (position player) + (moveZ * delta * 60)) in
      if JS.gt (JS.Math_abs (newX - vx (position player))) 0.0001
         || JS.gt (JS.Math_abs (newZ - vz (position player))) 0.0001 then
        let player :=
          set_position (Vec3 newX (vy (position player)) newZ) player in
        let s := set_playerRef (Some player) s in
        let s := set_movementChanged true s in
        let s := updatePlayerZone newX newZ s in
        let history :=
          positionHistory s ++ [{| s_x := newX; s_z := newZ; s_time := now |}] in
        let history :=
          if (MAX_HISTORY_LENGTH <? List.length history)%nat
          then tail history else history in
        let s := set_positionHistory history s in
        if (2 <=? List.length (positionHistory s))%nat
        then detectAnomalousMovement s
        else Some s
      else Some s
    else Some s
  end.

(** [sendPositionUpdate]; [now] is [Date.now()]. *)
Definition sendPositionUpdate (now : R) (s : Refs) : Refs * list Emit :=
  match playerRef s with
  | None => (s, [])
  | Some player =>
    if negb (isConnected s) || negb (movementChanged s) then (s, [])
    else if JS.ge (now - lastSendTime s) SEND_INTERVAL then
      let position := position player in
      let dx := JS.Math_abs (vx position - vx (lastSentPosition s)) in
      let dz := JS.Math_abs (vz position - vz (lastSentPosition s)) in
      let '(s, out) :=
        if JS.gt dx 0.01 || JS.gt dz 0.01 then
          let validX := boundX WORLD_BOUNDS (vx position) in
          let validZ := boundZ WORLD_BOUNDS (vz position) in
          let validatedPosition := Vec3 validX (vy position) validZ in
          (set_lastSent validatedPosition now s,
           [EmitPlayerMove validatedPosition])
        else (s, []) in
      (set_movementChanged false s, out)
    else (s, [])
  end.

(** [socket.on('playerMoved')]: an unknown id is ignored. *)
Definition playerMoved (data : MoveData) (s : Refs) : Refs :=
  match playersRef s !! d_id data with
  | Some playerMesh =>
    set_playersRef
      (<[ d_id data := moveKnownPlayer data playerMesh ]> (playersRef s)) s
  | None => s
  end.

End Legacy.

(** ** src/frontend/hooks/usePlayerMovement.ts *)

(** [PlayerInputState] of usePlayerInput, with the fields the hook reads. *)
Record PlayerInputState := {
  moveForward : bool; moveBackward : bool;
  moveLeft : bool; moveRight : bool;
  attemptJump : bool
}.

(** The refs of the hook: the mesh it is handed and its own three. *)
Record HookRefs := mkHookRefs {
  h_playerRef : option Mesh;
  h_isJumping : bool;
  h_jumpVelocity : R;
  h_movementOccurred : bool
}.

Module Hook.
Section Constants.

(** Imported from ../constants and ../game/world/WorldManager, which are
    not part of the sources at hand: the hook is read for every value of
    them. *)
Variables FIXED_SPEED_FACTOR GRAVITY JUMP_FORCE PLAYER_DEFAULT_Y : R.
Variable WORLD_BOUNDS : Bounds.

(** [updatePlayerMovement]; the boolean tells whether
    [consumeJumpAttempt] was called. *)
Definition updatePlayerMovement (cameraAngle : R)
    (inputState : PlayerInputState) (h : HookRefs) : HookRefs * bool :=
  match h_playerRef h with
  | None => (mkHookRefs None (h_isJumping h) (h_jumpVelocity h) false, false)
  | Some playerMesh =>
    let positionChanged := false in
    let orientationChanged := false in
    (* jumping *)
    let '(jumping, velocity, consumed, positionChanged) :=
      if attemptJump inputState && negb (h_isJumping h)
      then (true, JUMP_FORCE, true, true)
      else (h_isJumping h, h_jumpVelocity h, false, positionChanged) in
    let '(y, jumping, velocity, positionChanged) :=
      if jumping then
        let y := vy (position playerMesh) + velocity in
        let velocity := velocity - GRAVITY in
        if JS.le y PLAYER_DEFAULT_Y
        then (PLAYER_DEFAULT_Y, false, 0, true)
        else (y, jumping, velocity, true)
      else (vy (position playerMesh), jumping, velocity, positionChanged) in
    let playerMesh :=
      set_position
        (Vec3 (vx (position playerMesh)) y (vz (position playerMesh)))
        playerMesh in
    (* horizontal movement *)
    let moveX := 0 in
    let moveZ := 0 in
    let speedHalf := FIXED_SPEED_FACTOR / 2 in
    let '(moveX, moveZ) :=
      if moveForward inputState
      then (moveX - (sin cameraAngle * 2) * speedHalf,
            moveZ - (cos cameraAngle * 2) * speedHalf)
      else (moveX, moveZ) in
    let '(moveX, moveZ) :=
      if moveBackward inputState
      then (moveX + (sin cameraAngle * 2) * speedHalf,
            moveZ + (cos cameraAngle * 2) * speedHalf)
      else (moveX, moveZ) in
    let '(moveX, moveZ) :=
      if moveLeft inputState
      then (moveX - (sin (cameraAngle + PI / 2) * 2) * speedHalf,
            moveZ - (cos (cameraAngle + PI / 2) * 2) * speedHalf)
      else (moveX, moveZ) in
    let '(moveX, moveZ) :=
      if moveRight inputState
      then (moveX + (sin (cameraAngle + PI / 2) * 2) * speedHalf,
            moveZ + (cos (cameraAngle + PI / 2) * 2) * speedHalf)
      else (moveX, moveZ) in
    let '(playerMesh, positionChanged, orientationChanged) :=
      if JS.neq moveX 0 || JS.neq moveZ 0 then
        let currentPosition := position playerMesh in
        let newX := vx currentPosition + moveX in
        let newZ := vz currentPosition + moveZ in
        let boundedX := boundX WORLD_BOUNDS newX in
        let boundedZ := boundZ WORLD_BOUNDS newZ in
        let '(playerMesh, positionChanged) :=
          if JS.neq (vx (position playerMesh)) boundedX
             || JS.neq (vz (position playerMesh)) boundedZ
          then (set_position (Vec3 boundedX (vy currentPosition) boundedZ)
                  playerMesh, true)
          else (playerMesh, positionChanged) in
        let moveAngle := JS.Math_atan2 moveX moveZ in
        let rotationDiff := moveAngle - rotation_y playerMesh in
        let normalizedDiff := JS.rem (rotationDiff + PI) (PI * 2) - PI in
        let rotationStep := (normalizedDiff * 0.3) / 2 in
        if JS.gt (JS.Math_abs rotationStep) 0.001
        then (set_rotation_y (rotation_y playerMesh + rotationStep) playerMesh,
              positionChanged, true)
        else (playerMesh, positionChanged, orientationChanged)
      else (playerMesh, positionChanged, orientationChanged) in
    (mkHookRefs (Some playerMesh) jumping velocity
       (positionChanged || orientationChanged),
     consumed)
  end.

End Constants.
End Hook.

(** ** Runs of the update throttle

    What happens to the throttle between two frames: the movement code
    moves the mesh and raises the flag, the socket connects or
    disconnects, and the frame loop attempts to send. *)
Inductive ThrottleEvent :=
| Mutate (p : Vector3)
| Connection (up : bool)
| Attempt (now : R) (ready : bool) (sock : SocketResult).

Definition mutate (p : Vector3) (s : Refs) : Refs :=
  set_movementChanged true
    (set_playerRef (option_map (set_position p) (playerRef s)) s).

(** A report, stamped with the [Date.now()] of the attempt that sent it. *)
Definition Report : Type := R * Vector3.

Definition stamp (now : R) (out : list Emit) : list Report :=
  omap (fun e => match e with
                 | EmitPlayerMove p => Some (now, p)
                 | EmitGetPlayerData _ => None
                 end) out.

(** The reports of a run, oldest first, under either [sendPositionUpdate]. *)
Fixpoint run (send : R -> bool -> SocketResult -> Refs -> Refs * list Emit)
    (evs : list ThrottleEvent) (s : Refs) : Refs * list Report :=
  match evs with
  | [] => (s, [])
  | Mutate p :: evs => run send evs (mutate p s)
  | Connection up :: evs => run send evs (set_isConnected up s)
  | Attempt now ready sock :: evs =>
    let '(s1, out) := send now ready sock s in
    let '(s2, reports) := run send evs s1 in
    (s2, stamp now out ++ reports)
  end.

Definition legacySend (now : R) (_ : bool) (_ : SocketResult) (s : Refs) :
    Refs * list Emit :=
  Legacy.sendPositionUpdate now s.

(** The reports stamped inside the window [[w, w + SEND_INTERVAL)]. *)
Definition inWindow (w : R) (r : Report) : bool :=
  JS.le w (fst r) && JS.lt (fst r) (w + SEND_INTERVAL).
Definition reportsInWindow (w : R) (reports : list Report) : nat :=
  List.length (List.filter (inWindow w) reports).

(** Two reports, the second one later in the list, are at least
    [SEND_INTERVAL] apart. *)
Definition spaced (reports : list Report) : Prop :=
  StronglySorted (fun a b => fst a + SEND_INTERVAL <= fst b) reports.

(** What one attempt may do, seen from the throttle clock: either nothing
    is sent and the clock stands, or one [playerMove] is sent, the clock
    is set to [now] and [now] is at least [SEND_INTERVAL] after it. *)
Definition paced
    (send : R -> bool -> SocketResult -> Refs -> Refs * list Emit) : Prop :=
  forall now ready sock s,
    (snd (send now ready sock s) = [] /\
     lastSendTime (fst (send now ready sock s)) = lastSendTime s) \/
    (exists v, snd (send now ready sock s) = [EmitPlayerMove v] /\
     lastSendTime (fst (send now ready sock s)) = now /\
     lastSendTime s + SEND_INTERVAL <= now).

(** The gate and the clamp, as one attempt at [s] must have found them to
    send [out]. *)
Definition throughGate (now : R) (s s' : Refs) (out : list Emit) : Prop :=
  exists player,
    playerRef s = Some player /\
    movementChanged s = true /\
    SEND_INTERVAL <= now - lastSendTime s /\
    (0.01 < Rabs (vx (position player) - vx (lastSentPosition s)) \/
     0.01 < Rabs (vz (position player) - vz (lastSentPosition s))) /\
    let sent := Vec3 (boundX WORLD_BOUNDS (vx (position player)))
                     (vy (position player))
                     (boundZ WORLD_BOUNDS (vz (position player))) in
    out = [EmitPlayerMove sent] /\
    inBounds WORLD_BOUNDS (vx sent) (vz sent) /\
    lastSentPosition s' = sent /\
    lastSendTime s' = now /\
    movementChanged s' = false.

(** ** Measures and invariants *)

(** Horizontal distance between two positions. *)
Definition distXZ (a b : Vector3) : R :=
  sqrt ((vx b - vx a) ^ 2 + (vz b - vz a) ^ 2).

(** Every sample of the history satisfies [WORLD_BOUNDS]. *)
Definition historyInBounds (s : Refs) : Prop :=
  Forall (fun p => inBounds WORLD_BOUNDS (s_x p) (s_z p)) (positionHistory s).

(** The local mesh, when there is one, satisfies [WORLD_BOUNDS]. *)
Definition playerInBounds (b : Bounds) (p : option Mesh) : Prop :=
  forall m, p = Some m -> inBounds b (vx (position m)) (vz (position m)).

(** ** States and inputs of the examples *)

(** W alone on the keyboard; forward alone and forward with right for
    the hook; the refs of the hook when it is first called. *)
Definition wOnly : Keys :=
  {| k_w := true; k_a := false; k_s := false; k_d := false;
     k_ArrowUp := false; k_ArrowLeft := false;
     k_ArrowDown := false; k_ArrowRight := false |}.
Definition forwardRight : PlayerInputState :=
  {| moveForward := true; moveBackward := false;
     moveLeft := false; moveRight := true; attemptJump := false |}.
Definition forwardOnly : PlayerInputState :=
  {| moveForward := true; moveBackward := false;
     moveLeft := false; moveRight := false; attemptJump := false |}.
Definition initialHookRefs : HookRefs :=
  mkHookRefs (Some initialMesh) false 0 false.

(** States and events used in the examples: a registry that knows "bob",
    standing at (0, 1, 0), and moves addressed to "bob", to the unknown
    "ghost" and to the local player "me". *)
Definition bobMesh : Mesh :=
  {| position := Vec3 0 1 0; rotation_y := 0;
     userData_playerId := Some "bob"; userData_playerName := Some "Bob" |}.
Definition bobRefs : Refs := set_playersRef {[ "bob" := bobMesh ]} initialRefs.
Definition bobMove : MoveData :=
  {| d_id := "bob"; d_x := 10; d_y := 1; d_z := 0 |}.
Definition ghostMove : MoveData :=
  {| d_id := "ghost"; d_x := 100; d_y := 1; d_z := 0 |}.
Definition ownMove : MoveData :=
  {| d_id := "me"; d_x := 3; d_y := 1; d_z := 4 |}.

(** The frames used in the throttle examples: the player walks one unit
    along x before each of three attempts, at 100, 150 and 200 ms. *)
Definition threeAttempts : list ThrottleEvent :=
  [ Connection true;
    Mutate (Vec3 1 1 0); Attempt 100 true (Sock true);
    Mutate (Vec3 2 1 0); Attempt 150 true (Sock true);
    Attempt 200 true (Sock true) ].

(** Two attempts that send nothing and still lower the flag: the first
    stands before a closed time gate in frontend/components/GameCanvas.tsx,
    the second before a closed delta gate in components/GameCanvas.tsx. *)
Definition walkedRefs : Refs :=
  mutate (Vec3 1 1 0) (set_isConnected true initialRefs).
Definition nudgedRefs : Refs :=
  mutate (Vec3 0.005 1 0) (set_isConnected true initialRefs).

(** A jump of 5 units in 16 ms, from (0, 0) to (3, 4), and the state the
    guard turns it into: the sample and the mesh are pulled back to
    (0.18, 0.24), 0.3 from the previous sample. *)
Definition jumpRefs : Refs :=
  set_positionHistory
    [ {| s_x := 0; s_z := 0; s_time := 0 |};
      {| s_x := 3; s_z := 4; s_time := 16 |} ]
    (set_playerRef (Some (set_position (Vec3 3 1 4) initialMesh))
       initialRefs).
Definition cappedRefs : Refs :=
  set_positionHistory
    [ {| s_x := 0; s_z := 0; s_time := 0 |};
      {| s_x := 0.18; s_z := 0.24; s_time := 16 |} ]
    (set_playerRef (Some (set_position (Vec3 0.18 1 0.24) initialMesh))
       initialRefs).

(** ** src/frontend/components/GameCanvas.tsx: the other socket handlers

    The handlers that create and remove registry entries.  What they do
    to the scene graph and to the labels is left out, as before; the
    argument [scenePlayerIds] of [cleanupPlayerMeshes] lists the
    [userData.playerId] of the objects its traversal of the scene meets. *)

(** Truthiness of [socket.id]: a string that is not empty. *)
Definition truthyId (socket_id : option string) : bool :=
  match socket_id with
  | Some v => negb (String.eqb v "")
  | None => false
  end.

Module CanvasSocket.

(** [socket.on('connect')] *)
Definition onConnect (s : Refs) : Refs :=
  let s := set_isConnected true s in
  if (0 <? size (playersRef s))%nat then set_playersRef ∅ s else s.

(** [cleanupPlayerMeshes], as far as the registry goes: the set of valid
    ids is taken once, before the loop over the ids found in the scene. *)
Definition cleanupPlayerMeshes (socket_id : option string)
    (scenePlayerIds : list string) (s : Refs) : Refs :=
  let validPlayerIds : gset string :=
    dom (playersRef s)
    ∪ (if truthyId socket_id then {[ JS.str socket_id ]} else ∅) in
  foldl (fun s playerId =>
           if bool_decide (playerId ∉ validPlayerIds)
           then set_playersRef (delete playerId (playersRef s)) s
           else s)
        s (remove_dups scenePlayerIds).

(** The local mesh takes the position and the [userData] of [player]. *)
Definition placeLocalPlayer (player : Player) (s : Refs) : Refs :=
  match playerRef s with
  | Some m =>
    set_playerRef
      (Some {| position := Vec3 (p_x player) (p_y player) (p_z player);
               rotation_y := rotation_y m;
               userData_playerId := Some (p_id player);
               userData_playerName := Some (p_name player) |}) s
  | None => s
  end.

(** [socket.on('initPlayers')]; the second component is the argument of
    [setPlayerName], when it is called. *)
Definition initPlayers (socket_id : option string)
    (scenePlayerIds : list string) (players : list Player) (s : Refs) :
    Refs * option string :=
  let s := cleanupPlayerMeshes socket_id scenePlayerIds s in
  let name :=
    if truthyId socket_id then
      option_map p_name
        (List.find (fun p => bool_decide (Some (p_id p) = socket_id)) players)
    else None in
  (foldl (fun s player =>
            if bool_decide (Some (p_id player) = socket_id)
            then placeLocalPlayer player s
            else fst (Canvas.createPlayerMesh socket_id player s))
         s players,
   name).

(** [socket.on('playerJoined')] *)
Definition playerJoined (socket_id : option string) (player : Player)
    (s : Refs) : Refs * option string :=
  if bool_decide (Some (p_id player) = socket_id) then
    match playerRef s with
    | Some _ => (placeLocalPlayer player s, Some (p_name player))
    | None => (s, None)
    end
  else
    let s :=
      match playersRef s !! p_id player with
      | Some _ => set_playersRef (delete (p_id player) (playersRef s)) s
      | None => s
      end in
    (fst (Canvas.createPlayerMesh socket_id player s), None).

(** [socket.on('playerLeft')] *)
Definition playerLeft (socket_id : option string) (playerId : string)
    (s : Refs) : Refs :=
  if bool_decide (Some playerId = socket_id) then s
  else
    match playersRef s !! playerId with
    | Some _ => set_playersRef (delete playerId (playersRef s)) s
    | None => s
    end.

(** [socket.on('checkPlayersSync')]: the list handed to the callback. *)
Definition checkPlayersSync (playerIds : list string) (s : Refs) :
    list string :=
  List.filter (fun id => negb (bool_decide (is_Some (playersRef s !! id))))
              playerIds.

End CanvasSocket.

(** What the socket may deliver to the registry of the frontend file. *)
Inductive RegistryEvent :=
| EvConnect
| EvInitPlayers (scenePlayerIds : list string) (players : list Player)
| EvPlayerJoined (player : Player)
| EvPlayerLeft (playerId : string)
| EvPlayerMoved (data : MoveData)
| EvPlayerData (data : MoveData) (playerData : option Player)
| EvCleanup (scenePlayerIds : list string).

Definition deliver (socket_id : option string) (ev : RegistryEvent)
    (s : Refs) : Refs :=
  match ev with
  | EvConnect => CanvasSocket.onConnect s
  | EvInitPlayers ids players =>
    fst (CanvasSocket.initPlayers socket_id ids players s)
  | EvPlayerJoined player => fst (CanvasSocket.playerJoined socket_id player s)
  | EvPlayerLeft playerId => CanvasSocket.playerLeft socket_id playerId s
  | EvPlayerMoved data => fst (Canvas.playerMoved socket_id data s)
  | EvPlayerData data playerData =>
    Canvas.getPlayerDataCallback socket_id data playerData s
  | EvCleanup ids => CanvasSocket.cleanupPlayerMeshes socket_id ids s
  end.

Definition deliverAll (socket_id : option string)
    (evs : list RegistryEvent) (s : Refs) : Refs :=
  foldl (fun s ev => deliver socket_id ev s) s evs.

(** ** src/components/GameCanvas.tsx: the other socket handlers *)

Module LegacySocket.

(** [createPlayerMesh] *)
Definition createPlayerMesh (player : Player) (s : Refs) : Refs :=
  let otherPlayerMesh :=
    {| position := Vec3 (p_x player) (p_y player) (p_z player);
       rotation_y := 0;
       userData_playerId := Some (p_id player);
       userData_playerName := Some (p_name player) |} in
  set_playersRef (<[ p_id player := otherPlayerMesh ]> (playersRef s)) s.

(** [socket.on('initPlayers')] *)
Definition initPlayers (players : list Player) (s : Refs) : Refs :=
  foldl (fun s player =>
           match playersRef s !! p_id player with
           | Some _ => s
           | None => createPlayerMesh player s
           end)
        s players.

(** [socket.on('playerJoined')] *)
Definition playerJoined (player : Player) (s : Refs) : Refs :=
  match playersRef s !! p_id player with
  | None => createPlayerMesh player s
  | Some existingMesh =>
    set_playersRef
      (<[ p_id player :=
          {| position := Vec3 (p_x player) (p_y player) (p_z player);
             rotation_y := rotation_y existingMesh;
             userData_playerId := userData_playerId existingMesh;
             userData_playerName := Some (p_name player) |} ]>
         (playersRef s)) s
  end.

(** [socket.on('playerLeft')] *)
Definition playerLeft (playerId : string) (s : Refs) : Refs :=
  match playersRef s !! playerId with
  | Some _ => set_playersRef (delete playerId (playersRef s)) s
  | None => s
  end.

(** One turn of [animate], as far as the refs go: the movement, then the
    report.  [now] and [now'] are the two readings of [Date.now()]. *)
Definition animate (keys : Keys) (delta now now' : R) (s : Refs) :
    option (Refs * list Emit) :=
  match Legacy.updatePlayerMovement keys delta now s with
  | Some s => Some (Legacy.sendPositionUpdate now' s)
  | None => None
  end.

End LegacySocket.

(** A frame of the older file: the keys held, the clock delta and the two
    readings of the wall clock. *)
Record Frame := {
  f_keys : Keys; f_delta : R; f_now : R; f_now' : R
}.

(** The frames of a session, in order, with the reports they send. *)
Fixpoint animateAll (frames : list Frame) (s : Refs) :
    option (Refs * list Emit) :=
  match frames with
  | [] => Some (s, [])
  | f :: frames =>
    match LegacySocket.animate (f_keys f) (f_delta f) (f_now f) (f_now' f) s with
    | Some (s, out) =>
      match animateAll frames s with
      | Some (s, outs) => Some (s, out ++ outs)
      | None => None
      end
    | None => None
    end
  end.

(** ** World items: [itemDropped] and [itemRemoved]

    The same text in both files.  An entry of [worldItemsRef] is the
    payload of the event; its mesh belongs to the scene. *)

Record WorldItem := {
  i_dropId : string; i_itemType : string; i_x : R; i_y : R; i_z : R
}.

Module Items.

(** [socket.on('itemDropped')] *)
Definition itemDropped (data : WorldItem) (worldItems : list WorldItem) :
    list WorldItem :=
  worldItems ++ [data].

(** [findIndex(item => item.dropId === dropId)], [None] for -1. *)
Definition findIndex (dropId : string) (worldItems : list WorldItem) :
    option nat :=
  fst <$> list_find (fun item => i_dropId item = dropId) worldItems.

(** [socket.on('itemRemoved')] *)
Definition itemRemoved (dropId : string) (worldItems : list WorldItem) :
    list WorldItem :=
  match findIndex dropId worldItems with
  | Some itemIndex => delete itemIndex worldItems
  | None => worldItems
  end.

End Items.

(** ** Camera control of src/frontend/components/GameCanvas.tsx *)

Record CameraRefs := mkCamera {
  isMiddleMouseDown : bool;
  lastMousePosition : R * R;
  cameraDistance : R;
  cameraAngle : R;
  cameraTilt : R
}.

Definition initialCamera : CameraRefs := mkCamera false (0, 0) 10 0 0.5.

Module Camera.

(** [handleMouseDown]; [button] is [event.button]. *)
Definition handleMouseDown (button : Z) (clientX clientY : R)
    (c : CameraRefs) : CameraRefs :=
  if (button =? 1)%Z
  then mkCamera true (clientX, clientY) (cameraDistance c) (cameraAngle c)
         (cameraTilt c)
  else c.

(** [handleMouseUp] *)
Definition handleMouseUp (button : Z) (c : CameraRefs) : CameraRefs :=
  if (button =? 1)%Z
  then mkCamera false (lastMousePosition c) (cameraDistance c)
         (cameraAngle c) (cameraTilt c)
  else c.

(** [handleMouseMove] *)
Definition handleMouseMove (clientX clientY : R) (c : CameraRefs) :
    CameraRefs :=
  if isMiddleMouseDown c then
    let deltaX := clientX - fst (lastMousePosition c) in
    let deltaY := clientY - snd (lastMousePosition c) in
    mkCamera true (clientX, clientY) (cameraDistance c)
      (cameraAngle c + deltaX * 0.01)
      (JS.Math_max 0.1 (JS.Math_min 0.9 (cameraTilt c + deltaY * 0.01)))
  else c.

(** [handleMouseWheel] *)
Definition handleMouseWheel (deltaY : R) (c : CameraRefs) : CameraRefs :=
  mkCamera (isMiddleMouseDown c) (lastMousePosition c)
    (JS.Math_max 5 (JS.Math_min 20 (cameraDistance c + deltaY * 0.1)))
    (cameraAngle c) (cameraTilt c).

(** Where [animate] puts the camera for a mesh at [playerPosition]. *)
Definition cameraPosition (playerPosition : Vector3) (c : CameraRefs) :
    Vector3 :=
  let cameraX := vx playerPosition + sin (cameraAngle c) * cameraDistance c in
  let cameraZ := vz playerPosition + cos (cameraAngle c) * cameraDistance c in
  let cameraY := vy playerPosition + (cameraTilt c * 6 + 2) in
  Vec3 cameraX cameraY cameraZ.

End Camera.

Inductive MouseEvent :=
| MouseDown (button : Z) (clientX clientY : R)
| MouseUp (button : Z)
| MouseMove (clientX clientY : R)
| MouseWheel (deltaY : R).

Definition handleMouse (ev : MouseEvent) (c : CameraRefs) : CameraRefs :=
  match ev with
  | MouseDown b x y => Camera.handleMouseDown b x y c
  | MouseUp b => Camera.handleMouseUp b c
  | MouseMove x y => Camera.handleMouseMove x y c
  | MouseWheel d => Camera.handleMouseWheel d c
  end.

(** ** Chat bubbles of src/frontend/components/GameCanvas.tsx

    [chatBubblesRef] maps a player id to a bubble; of the bubble the
    model keeps the expiry time. *)

Module Chat.

(** [createChatBubble]; [now] is [Date.now()]. *)
Definition createChatBubble (now : R) (playerId : string)
    (chatBubbles : gmap string R) : gmap string R :=
  <[ playerId := now + 10000 ]> (delete playerId chatBubbles).

(** [socket.on('chatMessage')]: a bubble for the local player or for a
    registered one, nothing otherwise. *)
Definition chatMessage (socket_id : option string) (now : R)
    (playerId : string) (s : Refs) (chatBubbles : gmap string R) :
    gmap string R :=
  if bool_decide (Some playerId = socket_id)
     && bool_decide (is_Some (playerRef s))
  then createChatBubble now playerId chatBubbles
  else if negb (String.eqb playerId "")
          && bool_decide (is_Some (playersRef s !! playerId))
  then createChatBubble now playerId chatBubbles
  else chatBubbles.

(** The sweep of [animate]: the expired ids are collected first, then
    removed one by one. *)
Definition sweep (now : R) (chatBubbles : gmap string R) : gmap string R :=
  let expiredBubbles :=
    omap (fun '(playerId, expiry) =>
            if JS.gt now expiry then Some playerId else None)
         (map_to_list chatBubbles) in
  foldl (fun bubbles playerId => delete playerId bubbles)
        chatBubbles expiredBubbles.

End Chat.

(** ** Runs of frames and sequences of inputs *)

(** The hook called once per frame with the camera angle and the input
    of that frame. *)
Definition hookFrames (F G J Y : R) (b : Bounds)
    (inputs : list (R * PlayerInputState)) (h : HookRefs) : HookRefs :=
  foldl (fun h i => fst (Hook.updatePlayerMovement F G J Y b (fst i) (snd i) h))
        h inputs.

(** [updatePlayerMovement] of the frontend file called once per frame
    with the keys, the camera angle and the clock of that frame. *)
Definition canvasFrames (inputs : list (Keys * R * R)) (s : Refs) : Refs :=
  foldl (fun s i =>
           Canvas.updatePlayerMovement (fst (fst i)) (snd (fst i)) (snd i) s)
        s inputs.

(** Height of a mesh, when there is one. *)
Definition heightAtLeast (y : R) (p : option Mesh) : Prop :=
  forall m, p = Some m -> y <= vy (position m).

(** The positions a list of emissions reports. *)
Definition reported (out : list Emit) : list Vector3 :=
  omap (fun e => match e with
                 | EmitPlayerMove p => Some p
                 | EmitGetPlayerData _ => None
                 end) out.

(** The keys cancel: forward with backward, left with right, or none. *)
Definition cancelling (keys : Keys) : Prop :=
  (k_w keys || k_ArrowUp keys) = (k_s keys || k_ArrowDown keys) /\
  (k_a keys || k_ArrowLeft keys) = (k_d keys || k_ArrowRight keys).

(** ** Further measures, invariants and example inputs *)

(** The ids of a roster that are not the local player's. *)
Definition remoteIds (socket_id : option string) (players : list Player) :
    gset string :=
  list_to_set
    (List.map p_id
       (List.filter (fun p => negb (bool_decide (Some (p_id p) = socket_id)))
                    players)).

(** A roster of three players, the local one among them. *)
Definition rosterAB : list Player :=
  [ {| p_id := "a"; p_name := "Ann"; p_x := 1; p_y := 1; p_z := 2;
       p_userId := "u1" |};
    {| p_id := "me"; p_name := "Me"; p_x := 7; p_y := 1; p_z := 7;
       p_userId := "u0" |};
    {| p_id := "b"; p_name := "Ben"; p_x := 3; p_y := 1; p_z := 4;
       p_userId := "u2" |} ].

(** A join event of a remote player. *)
Definition annJoins : Player :=
  {| p_id := "ann"; p_name := "Ann"; p_x := 60; p_y := 1; p_z := 2;
     p_userId := "u1" |}.

(** The meshes of the registry satisfy [WORLD_BOUNDS]. *)
Definition registryInBounds (s : Refs) : Prop :=
  map_Forall (fun _ m => inBounds WORLD_BOUNDS (vx (position m))
                                  (vz (position m)))
             (playersRef s).

(** A dropped log with the given drop id. *)
Definition logItem (id : string) : WorldItem :=
  {| i_dropId := id; i_itemType := "log"; i_x := 1; i_y := 0; i_z := 2 |}.

(** The zoom and the tilt are inside their ranges. *)
Definition cameraInRange (c : CameraRefs) : Prop :=
  5 <= cameraDistance c <= 20 /\ 0.1 <= cameraTilt c <= 0.9.

(** What one attempt does to the clock and to the last sent position,
    and where the position it reports lies. *)
Definition orderly
    (send : R -> bool -> SocketResult -> Refs -> Refs * list Emit) : Prop :=
  forall now ready sock s,
    let r := send now ready sock s in
    (snd r = [] /\ lastSendTime (fst r) = lastSendTime s /\
     lastSentPosition (fst r) = lastSentPosition s) \/
    (exists p, snd r = [EmitPlayerMove p] /\
       inBounds WORLD_BOUNDS (vx p) (vz p) /\
       lastSentPosition (fst r) = p /\ lastSendTime (fst r) = now /\
       lastSendTime s <= now).

(** Two frames with the W key held. *)
Definition strollFrames : list Frame :=
  [ {| f_keys := wOnly; f_delta := 0.016; f_now := 16; f_now' := 16 |};
    {| f_keys := wOnly; f_delta := 0.016; f_now := 32; f_now' := 33 |} ].

(** The W and the S key held together. *)
Definition wAndS : Keys :=
  {| k_w := true; k_a := false; k_s := true; k_d := false;
     k_ArrowUp := false; k_ArrowLeft := false;
     k_ArrowDown := false; k_ArrowRight := false |}.

(** The mesh of [h] stands on the ground, at rest. *)
Definition grounded (Y : R) (h : HookRefs) : Prop :=
  exists m, h_playerRef h = Some m /\ h_isJumping h = false /\
            vy (position m) = Y /\ h_jumpVelocity h = 0.

(** The hook in mid-jump, rising at 0.3 per frame. *)
Definition airborneHookRefs : HookRefs :=
  mkHookRefs (Some initialMesh) true 0.3 false.

(** No movement intent and no jump. *)
Definition idleInput : PlayerInputState :=
  {| moveForward := false; moveBackward := false;
     moveLeft := false; moveRight := false; attemptJump := false |}.


(** ** The guard and the known-player move over binary64 numbers

    [detectAnomalousMovement] and the known-player branch of
    [socket.on('playerMoved')], translated a second time with the numbers
    of the source: [+], [-], [*], [/], [Math.sqrt] and the comparisons
    are the IEEE 754 binary64 operations, NaN and the infinities
    included.  [Math.pow(d, 2)] is taken as the correctly rounded square
    [d * d].  The state is cut down to what the two functions read and
    write: the position of a mesh and the history. *)

Module Binary64.

Import PrimFloat.
#[local] Set Warnings "-inexact-float".
Local Open Scope float_scope.

(** [Math.min] and [Math.max] of two numbers: NaN when either is NaN,
    and -0 counts as smaller than +0. *)
Definition Math_min (a b : float) : float :=
  if is_nan a || is_nan b then nan
  else if a <? b then a
  else if b <? a then b
  else if get_sign a then a else b.
Definition Math_max (a b : float) : float :=
  if is_nan a || is_nan b then nan
  else if b <? a then a
  else if a <? b then b
  else if get_sign a then b else a.
Definition Math_sqrt (a : float) : float := sqrt a.
(** [Math.pow(a, 2)] *)
Definition Math_pow2 (a : float) : float := a * a.

Record Vector3 := Vec3 { vx : float; vy : float; vz : float }.

(** An entry of [positionHistory]. *)
Record Sample := { s_x : float; s_z : float; s_time : float }.

(** [playerRef.current.position], when there is a mesh, and
    [positionHistory.current]. *)
Record Refs := mkRefs {
  playerRef : option Vector3;
  positionHistory : list Sample
}.

(** The coordinates of a [playerMoved] payload; a missing coordinate
    reaches [Math.min] as [undefined], which it reads as NaN. *)
Record MoveData := { d_x : float; d_y : float; d_z : float }.

Definition MOVEMENT_SPEED : float := 0.15.
Definition ANOMALOUS_SPEED_THRESHOLD : float := 1.0.
Definition LARGE_MOVEMENT_THRESHOLD : float := 5.
(** [WORLD_BOUNDS] *)
Definition minX : float := -50.
Definition maxX : float := 50.
Definition minZ : float := -50.
Definition maxZ : float := 50.

(** [detectAnomalousMovement]: the same text in both files; [None] is
    the [TypeError] on a history shorter than two samples. *)
Definition detectAnomalousMovement (s : Refs) : option Refs :=
  let history := positionHistory s in
  match JS.index history (JS.len history - 1)%Z,
        JS.index history (JS.len history - 2)%Z with
  | Some latest, Some previous =>
    let distance := Math_sqrt (
      Math_pow2 (s_x latest - s_x previous) +
      Math_pow2 (s_z latest - s_z previous)) in
    let timeDiff := (s_time latest - s_time previous) / 1000 in
    if 0 <? timeDiff then
      let speed := distance / timeDiff in
      match playerRef s with
      | Some position =>
        if ANOMALOUS_SPEED_THRESHOLD <? speed then
          let maxAllowedDistance := MOVEMENT_SPEED * 2 in
          if maxAllowedDistance <? distance then
            let dirX := (s_x latest - s_x previous) / distance in
            let dirZ := (s_z latest - s_z previous) / distance in
            let cappedX := s_x previous + (dirX * maxAllowedDistance) in
            let cappedZ := s_z previous + (dirZ * maxAllowedDistance) in
            let boundedX := Math_max minX (Math_min maxX cappedX) in
            let boundedZ := Math_max minZ (Math_min maxZ cappedZ) in
            Some {| playerRef := Some (Vec3 boundedX (vy position) boundedZ);
                    positionHistory :=
                      <[ Z.to_nat (JS.len history - 1) :=
                         {| s_x := boundedX; s_z := boundedZ;
                            s_time := s_time latest |} ]> history |}
          else Some s
        else Some s
      | None => Some s
      end
    else Some s
  | _, _ => None
  end.

(** The body of [if (playerMesh) { ... }] of [socket.on('playerMoved')],
    the same text in both files, on the position of the mesh. *)
Definition moveKnownPlayer (data : MoveData) (currentPos : Vector3) :
    Vector3 :=
  let validX := Math_max minX (Math_min maxX (d_x data)) in
  let validZ := Math_max minZ (Math_min maxZ (d_z data)) in
  let distanceToNewPos := Math_sqrt (
    Math_pow2 (validX - vx currentPos) +
    Math_pow2 (validZ - vz currentPos)) in
  if LARGE_MOVEMENT_THRESHOLD <? distanceToNewPos then
    let midX := vx currentPos + (validX - vx currentPos) * 0.5 in
    let midZ := vz currentPos + (validZ - vz currentPos) * 0.5 in
    Vec3 midX (d_y data) midZ
  else
    Vec3 validX (d_y data) validZ.

(** The last two samples pass the test of the guard, as the guard
    measures them: the time stamps do not increase, or the speed is not
    above [ANOMALOUS_SPEED_THRESHOLD], or the distance is not above
    [MOVEMENT_SPEED * 2]. *)
Definition pairPasses (s : Refs) : bool :=
  let history := positionHistory s in
  match JS.index history (JS.len history - 1)%Z,
        JS.index history (JS.len history - 2)%Z with
  | Some latest, Some previous =>
    let distance := Math_sqrt (
      Math_pow2 (s_x latest - s_x previous) +
      Math_pow2 (s_z latest - s_z previous)) in
    let timeDiff := (s_time latest - s_time previous) / 1000 in
    negb (0 <? timeDiff)
    || negb (ANOMALOUS_SPEED_THRESHOLD <? distance / timeDiff)
    || negb (MOVEMENT_SPEED * 2 <? distance)
  | _, _ => false
  end.

(** Neither coordinate is a number below the minimum or above the
    maximum of [WORLD_BOUNDS]. *)
Definition notOutside (x z : float) : Prop :=
  (x <? minX) = false /\ (maxX <? x) = false /\
  (z <? minZ) = false /\ (maxZ <? z) = false.

(** A history of two samples, 16 ms apart, with the mesh on the later
    one. *)
Definition pair (x z : float) : Refs :=
  {| playerRef := Some (Vec3 x 1 z);
     positionHistory := [ {| s_x := 0; s_z := 0; s_time := 0 |};
                          {| s_x := x; s_z := z; s_time := 16 |} ] |}.

(** A leap from (0, 0) to (1, 5), what one run of the guard makes of it
    and what a second run makes of that. *)
Definition leapRefs : Refs := pair 1 5.
Definition cappedOnce : Refs :=
  pair 0x1.e1f99a7fb5a88p-5 0x1.2d3c008fd1895p-2.


(** A payload whose [x] is not a number. *)
Definition nanMove : MoveData := {| d_x := nan; d_y := 1; d_z := 2 |}.

End Binary64.

(** * Properties *)

(** ** Comparisons *)

Lemma gt_true x y : JS.gt x y = true <-> y < x.
Proof. unfold JS.gt. destruct (Rlt_dec y x); split; auto; discriminate. Qed.

Lemma gt_false x y : JS.gt x y = false <-> x <= y.
Proof.
  unfold JS.gt. destruct (Rlt_dec y x); split; auto; try discriminate; lra.
Qed.

Lemma lt_true x y : JS.lt x y = true <-> x < y.
Proof. unfold JS.lt. destruct (Rlt_dec x y); split; auto; discriminate. Qed.

Lemma lt_false x y : JS.lt x y = false <-> y <= x.
Proof.
  unfold JS.lt. destruct (Rlt_dec x y); split; auto; try discriminate; lra.
Qed.

Lemma ge_true x y : JS.ge x y = true <-> y <= x.
Proof. unfold JS.ge. destruct (Rle_dec y x); split; auto; discriminate. Qed.

Lemma ge_false x y : JS.ge x y = false <-> x < y.
Proof.
  unfold JS.ge. destruct (Rle_dec y x); split; auto; try discriminate; lra.
Qed.

Lemma le_true x y : JS.le x y = true <-> x <= y.
Proof. unfold JS.le. destruct (Rle_dec x y); split; auto; discriminate. Qed.

Lemma le_false x y : JS.le x y = false <-> y < x.
Proof.
  unfold JS.le. destruct (Rle_dec x y); split; auto; try discriminate; lra.
Qed.

Lemma neq_true x y : JS.neq x y = true <-> x <> y.
Proof. unfold JS.neq. destruct (Req_dec_T x y); split; auto; discriminate. Qed.

Lemma neq_false x y : JS.neq x y = false <-> x = y.
Proof.
  unfold JS.neq. destruct (Req_dec_T x y); split; auto; try discriminate.
  intros; contradiction.
Qed.

(** Settles a comparison between two numerals. *)
Ltac js_cmp :=
  repeat match goal with
  | |- context [JS.gt ?x ?y] =>
    first [ rewrite (proj2 (gt_true x y)) by lra
          | rewrite (proj2 (gt_false x y)) by lra ]
  | |- context [JS.lt ?x ?y] =>
    first [ rewrite (proj2 (lt_true x y)) by lra
          | rewrite (proj2 (lt_false x y)) by lra ]
  | |- context [JS.ge ?x ?y] =>
    first [ rewrite (proj2 (ge_true x y)) by lra
          | rewrite (proj2 (ge_false x y)) by lra ]
  | |- context [JS.le ?x ?y] =>
    first [ rewrite (proj2 (le_true x y)) by lra
          | rewrite (proj2 (le_false x y)) by lra ]
  | |- context [JS.neq ?x ?y] =>
    first [ rewrite (proj2 (neq_true x y)) by lra
          | rewrite (proj2 (neq_false x y)) by lra ]
  end.

(** ** Clamping *)

Lemma boundX_in x : -50 <= boundX WORLD_BOUNDS x <= 50.
Proof.
  unfold boundX, JS.Math_max, JS.Math_min, Rmax, Rmin; simpl.
  repeat destruct (Rle_dec _ _); lra.
Qed.

Lemma boundZ_in z : -50 <= boundZ WORLD_BOUNDS z <= 50.
Proof.
  unfold boundZ, JS.Math_max, JS.Math_min, Rmax, Rmin; simpl.
  repeat destruct (Rle_dec _ _); lra.
Qed.

Lemma boundX_id x : -50 <= x <= 50 -> boundX WORLD_BOUNDS x = x.
Proof.
  unfold boundX, JS.Math_max, JS.Math_min, Rmax, Rmin; simpl.
  repeat destruct (Rle_dec _ _); lra.
Qed.

Lemma boundZ_id z : -50 <= z <= 50 -> boundZ WORLD_BOUNDS z = z.
Proof.
  unfold boundZ, JS.Math_max, JS.Math_min, Rmax, Rmin; simpl.
  repeat destruct (Rle_dec _ _); lra.
Qed.

Lemma bound_inBounds x z :
  inBounds WORLD_BOUNDS (boundX WORLD_BOUNDS x) (boundZ WORLD_BOUNDS z).
Proof.
  unfold inBounds; simpl. split; [apply boundX_in | apply boundZ_in].
Qed.

(** ** ZoneClassifier *)

(** C5, as the code has it: of the five literal coordinates of the
    specification, (-20,-20) is Barbarian Village, (30,-10) is Fishing
    Spot, (5,30) is Grand Exchange and (0,0) is Lumbridge; (40,40) meets
    the third rule before the fourth and is Grand Exchange, while
    Wilderness is what a point such as (40,10) yields.  The zone recorded
    by [updatePlayerZone] is always the one the priority list yields. *)
Theorem zone_literals :
  newZone (-20) (-20) = "Barbarian Village" /\
  newZone 30 (-10) = "Fishing Spot" /\
  newZone 5 30 = "Grand Exchange" /\
  newZone 40 40 = "Grand Exchange" /\
  newZone 40 10 = "Wilderness" /\
  newZone 0 0 = "Lumbridge" /\
  forall x z s, currentZone (updatePlayerZone x z s) = newZone x z.
Proof.
  repeat (split; [unfold newZone; js_cmp; reflexivity|]).
  intros x z s. unfold updatePlayerZone.
  case_bool_decide as H; simpl; [reflexivity|].
  destruct (decide (newZone x z = currentZone s)); congruence.
Qed.

(** C5, as stated, fails at (40,40): the classifier does not answer
    Wilderness there. *)
Lemma zone_40_40_not_wilderness : newZone 40 40 <> "Wilderness".
Proof. unfold newZone; js_cmp; simpl. discriminate. Qed.

(** ** RemoteEntityReconciler: [playerMoved] *)

Lemma sqrt_sq_sum_nonneg a b : 0 <= a ^ 2 + b ^ 2.
Proof. nra. Qed.


Lemma distXZ_nonneg a b : 0 <= distXZ a b.
Proof. unfold distXZ. apply sqrt_pos. Qed.

Lemma distXZ_eq a b d :
  0 <= d -> (vx b - vx a) ^ 2 + (vz b - vz a) ^ 2 = d * d -> distXZ a b = d.
Proof.
  intros Hd H. unfold distXZ. rewrite H. now apply sqrt_square.
Qed.

(** The known-player branch, read as the specification words it: beyond
    the threshold the mesh goes to the midpoint, otherwise to the clamped
    target. *)
Lemma moveKnownPlayer_spec data m :
  let target := Vec3 (boundX WORLD_BOUNDS (d_x data)) (d_y data)
                     (boundZ WORLD_BOUNDS (d_z data)) in
  let cur := position m in
  (LARGE_MOVEMENT_THRESHOLD < distXZ cur target ->
   position (moveKnownPlayer data m) =
     Vec3 (vx cur + 0.5 * (vx target - vx cur)) (d_y data)
          (vz cur + 0.5 * (vz target - vz cur))) /\
  (distXZ cur target <= LARGE_MOVEMENT_THRESHOLD ->
   position (moveKnownPlayer data m) = target).
Proof.
  intros target cur. unfold moveKnownPlayer.
  change (JS.Math_sqrt
            (JS.Math_pow (boundX WORLD_BOUNDS (d_x data) - vx (position m)) 2 +
             JS.Math_pow (boundZ WORLD_BOUNDS (d_z data) - vz (position m)) 2))
    with (distXZ cur target).
  split; intros H.
  - rewrite (proj2 (gt_true _ _)) by exact H.
    subst target cur; simpl. f_equal; lra.
  - rewrite (proj2 (gt_false _ _)) by exact H. reflexivity.
Qed.





(** The move of the example is the 10-unit move of the specification:
    "bob" goes from (0, 0) to (5, 0). *)
Lemma bob_lands_on_midpoint :
  fst (Canvas.playerMoved (Some "me") bobMove bobRefs)
  = set_playersRef {[ "bob" := set_position (Vec3 5 1 0) bobMesh ]} bobRefs.
Proof.
  unfold Canvas.playerMoved.
  replace (Canvas.isOwnId (Some "me") (d_id bobMove)) with false
    by reflexivity.
  replace (playersRef bobRefs !! d_id bobMove) with (Some bobMesh)
    by (symmetry; apply lookup_singleton_eq).
  simpl. unfold set_playersRef; simpl. f_equal.
  rewrite insert_singleton_eq. f_equal.
  destruct (moveKnownPlayer_spec bobMove bobMesh) as [Hfar _].
  simpl in Hfar. rewrite boundX_id, boundZ_id in Hfar by lra.
  unfold set_position. simpl.
  assert (Hd : distXZ (Vec3 0 1 0) (Vec3 10 1 0) = 10)
    by (apply distXZ_eq; simpl; lra).
  rewrite Hd in Hfar. unfold LARGE_MOVEMENT_THRESHOLD in Hfar.
  specialize (Hfar ltac:(lra)).
  destruct (moveKnownPlayer bobMove bobMesh) eqn:E.
  unfold moveKnownPlayer in E.
  simpl in Hfar. subst position0.
  assert (Hm : userData_playerId0 = Some "bob" /\
               userData_playerName0 = Some "Bob" /\ rotation_y0 = 0).
  { destruct (JS.gt _ _); inversion E; auto. }
  destruct Hm as (-> & -> & ->). f_equal. f_equal; lra.
Qed.

(** The known-player branch keeps a mesh inside the bounds when it was
    inside before: the midpoint of two points of the rectangle is in the
    rectangle. *)
Lemma moveKnownPlayer_inBounds data m :
  inBounds WORLD_BOUNDS (vx (position m)) (vz (position m)) ->
  inBounds WORLD_BOUNDS (vx (position (moveKnownPlayer data m)))
                        (vz (position (moveKnownPlayer data m))).
Proof.
  intros [Hx Hz]. simpl in Hx, Hz.
  pose proof (boundX_in (d_x data)) as Bx.
  pose proof (boundZ_in (d_z data)) as Bz.
  unfold moveKnownPlayer. destruct (JS.gt _ _); unfold inBounds; simpl; lra.
Qed.

(** C6, at the input where the code departs from it: a move to x = 100
    for the unknown id "ghost" sends the lookup request, and when the
    server has no data the placeholder is registered at x = 100, beyond
    maxX = 50. *)
Theorem placeholder_outside_bounds :
  Canvas.playerMoved (Some "me") ghostMove initialRefs
    = (initialRefs, [EmitGetPlayerData "ghost"]) /\
  exists m,
    playersRef
      (Canvas.getPlayerDataCallback (Some "me") ghostMove None initialRefs)
      !! "ghost" = Some m /\
    vx (position m) = 100 /\
    ~ inBounds WORLD_BOUNDS (vx (position m)) (vz (position m)).
Proof.
  split; [reflexivity|].
  unfold Canvas.getPlayerDataCallback, Canvas.createPlayerMesh.
  replace (bool_decide (Some "me" = Some (p_id (Canvas.minimalPlayer ghostMove))))
    with false by reflexivity.
  simpl. eexists. rewrite lookup_insert_eq. split; [reflexivity|].
  simpl. split; [reflexivity|]. unfold inBounds; simpl. lra.
Qed.

(** Once a mesh is outside, the known-player branch need not bring it
    back: from x = 100 a move to x = 100 is clamped to 50 and then halved
    to 75. *)
Lemma known_move_from_outside :
  let m := set_position (Vec3 100 1 0) bobMesh in
  vx (position (moveKnownPlayer ghostMove m)) = 75.
Proof.
  simpl. destruct (moveKnownPlayer_spec ghostMove
                     (set_position (Vec3 100 1 0) bobMesh)) as [Hfar _].
  simpl in Hfar.
  assert (Hb : boundX WORLD_BOUNDS 100 = 50).
  { unfold boundX, JS.Math_max, JS.Math_min, Rmax, Rmin; simpl.
    repeat destruct (Rle_dec _ _); lra. }
  rewrite Hb, boundZ_id in Hfar by lra.
  rewrite Hfar; simpl; [lra|].
  unfold LARGE_MOVEMENT_THRESHOLD.
  erewrite distXZ_eq with (d := 50); simpl; lra.
Qed.

(** C7, as the code has it: a move whose id is not in the registry and
    is not the local player's own id ([socket.id] or 'TEST-' + [socket.id])
    sends [getPlayerData] for that id, and when the answer is null the
    callback registers under that id a placeholder named "Player-" plus
    the first four characters of the id, at the position of the event. *)
Theorem unknown_id_lookup_then_placeholder
    (socket_id : option string) (data : MoveData) (s : Refs) :
  Canvas.isOwnId socket_id (d_id data) = false ->
  playersRef s !! d_id data = None ->
  Canvas.playerMoved socket_id data s = (s, [EmitGetPlayerData (d_id data)]) /\
  forall s' : Refs,
    playersRef (Canvas.getPlayerDataCallback socket_id data None s')
      !! d_id data
    = Some {| position := Vec3 (d_x data) (d_y data) (d_z data);
              rotation_y := 0;
              userData_playerId := Some (d_id data);
              userData_playerName :=
                Some ("Player-" +:+ String.substring 0 4 (d_id data)) |}.
Proof.
  intros Hown Hnone. split.
  - unfold Canvas.playerMoved. now rewrite Hown, Hnone.
  - intros s'. unfold Canvas.getPlayerDataCallback, Canvas.createPlayerMesh.
    simpl. unfold Canvas.isOwnId in Hown.
    apply orb_false_iff in Hown as [Hown _].
    apply bool_decide_eq_false in Hown.
    rewrite bool_decide_eq_false_2 by congruence.
    simpl. now rewrite lookup_insert_eq.
Qed.

Lemma unknown_id_lookup_then_placeholder_witness :
  Canvas.playerMoved (Some "me") ghostMove initialRefs
    = (initialRefs, [EmitGetPlayerData "ghost"]) /\
  forall s' : Refs,
    playersRef (Canvas.getPlayerDataCallback (Some "me") ghostMove None s')
      !! "ghost"
    = Some {| position := Vec3 100 1 0;
              rotation_y := 0;
              userData_playerId := Some "ghost";
              userData_playerName := Some "Player-ghos" |}.
Proof.
  apply (unknown_id_lookup_then_placeholder (Some "me") ghostMove initialRefs).
  - reflexivity.
  - reflexivity.
Defined.

(** C7, as stated, fails for the local player's own id: it is not in the
    registry, yet the move sends no request and registers nothing. *)
Lemma own_id_move_sends_no_request :
  playersRef initialRefs !! d_id ownMove = None /\
  Canvas.playerMoved (Some "me") ownMove initialRefs = (initialRefs, []) /\
  ~ (exists out, Canvas.playerMoved (Some "me") ownMove initialRefs
                 = (out, [EmitGetPlayerData (d_id ownMove)])).
Proof.
  split; [reflexivity|]. split; [reflexivity|].
  intros [out H]. discriminate H.
Qed.

(** C10: a move whose id is the local player's own id, or that id behind
    the prefix 'TEST-', changes nothing: the refs that come back are the
    refs that went in, local mesh and registry included, and nothing is
    sent. *)
Theorem own_move_is_ignored
    (own : string) (socket_id : option string) (x y z : R) (s : Refs) :
  Canvas.playerMoved (Some own)
    {| d_id := own; d_x := x; d_y := y; d_z := z |} s = (s, []) /\
  Canvas.playerMoved socket_id
    {| d_id := "TEST-" +:+ JS.str socket_id; d_x := x; d_y := y; d_z := z |} s
  = (s, []).
Proof.
  unfold Canvas.playerMoved, Canvas.isOwnId; simpl. split.
  - now rewrite bool_decide_eq_true_2.
  - rewrite (bool_decide_eq_true_2
               ("TEST-" +:+ JS.str socket_id = "TEST-" +:+ JS.str socket_id))
      by reflexivity.
    now rewrite orb_true_r.
Qed.

(** ** UpdateThrottle: [sendPositionUpdate] *)

Lemma canvas_send_cases now ready sock s :
  let r := Canvas.sendPositionUpdate now ready sock s in
  (snd r = [] /\ lastSendTime (fst r) = lastSendTime s /\
   lastSentPosition (fst r) = lastSentPosition s) \/
  throughGate now s (fst r) (snd r).
Proof.
  unfold Canvas.sendPositionUpdate, throughGate.
  destruct (playerRef s) as [player|] eqn:Hp; [|left; auto].
  destruct (isConnected s); simpl; [|left; auto].
  destruct ready; simpl; [|left; auto].
  destruct (movementChanged s) eqn:Hc; simpl; [|left; auto].
  destruct (JS.ge _ _) eqn:Hg; [|left; auto].
  destruct (JS.gt _ 0.01 || JS.gt _ 0.01) eqn:Hd; [|left; auto].
  destruct sock as [| |[|]]; try (left; simpl; auto; fail).
  right. exists player. simpl.
  apply ge_true in Hg. apply orb_true_iff in Hd.
  repeat rewrite gt_true in Hd. unfold JS.Math_abs in Hd.
  repeat split; auto; try apply boundX_in; try apply boundZ_in.
Qed.

Lemma legacy_send_cases now s :
  let r := Legacy.sendPositionUpdate now s in
  (snd r = [] /\ lastSendTime (fst r) = lastSendTime s /\
   lastSentPosition (fst r) = lastSentPosition s) \/
  throughGate now s (fst r) (snd r).
Proof.
  unfold Legacy.sendPositionUpdate, throughGate.
  destruct (playerRef s) as [player|] eqn:Hp; [|left; auto].
  destruct (isConnected s); simpl; [|left; auto].
  destruct (movementChanged s) eqn:Hc; simpl; [|left; auto].
  destruct (JS.ge _ _) eqn:Hg; [|left; auto].
  destruct (JS.gt _ 0.01 || JS.gt _ 0.01) eqn:Hd; [|left; auto].
  right. exists player. simpl.
  apply ge_true in Hg. apply orb_true_iff in Hd.
  repeat rewrite gt_true in Hd. unfold JS.Math_abs in Hd.
  repeat split; auto; try apply boundX_in; try apply boundZ_in.
Qed.

Lemma throughGate_paced now s s' out :
  throughGate now s s' out ->
  exists v, out = [EmitPlayerMove v] /\ lastSendTime s' = now /\
            lastSendTime s + SEND_INTERVAL <= now.
Proof.
  intros (player & _ & _ & Ht & _ & Hout & _ & _ & Hnow & _).
  eexists; repeat split; eauto. lra.
Qed.

Lemma canvas_paced : paced Canvas.sendPositionUpdate.
Proof.
  intros now ready sock s.
  destruct (canvas_send_cases now ready sock s) as [(H1 & H2 & _)|H].
  - left; auto.
  - right. now apply throughGate_paced in H.
Qed.

Lemma legacy_paced : paced legacySend.
Proof.
  intros now ready sock s. unfold legacySend.
  destruct (legacy_send_cases now s) as [(H1 & H2 & _)|H].
  - left; auto.
  - right. now apply throughGate_paced in H.
Qed.

(** Along a run the reports are spaced, and none comes before
    [SEND_INTERVAL] has passed on the clock the run started with. *)
Lemma run_spaced send :
  paced send ->
  forall evs s,
    spaced (snd (run send evs s)) /\
    Forall (fun r => lastSendTime s + SEND_INTERVAL <= fst r)
           (snd (run send evs s)).
Proof.
  intros Hsend evs. induction evs as [|ev evs IH]; intros s.
  - simpl. split; constructor.
  - destruct ev as [p|up|now ready sock]; simpl.
    + apply (IH (mutate p s)).
    + apply (IH (set_isConnected up s)).
    + specialize (Hsend now ready sock s).
      destruct (send now ready sock s) as [s1 out]. simpl in Hsend.
      specialize (IH s1).
      destruct (run send evs s1) as [s2 reports]. simpl in *.
      destruct IH as [IH1 IH2].
      destruct Hsend as [[-> Hclock]|(v & -> & Hclock & Hgap)]; simpl.
      * rewrite Hclock in IH2. auto.
      * rewrite Hclock in IH2. split.
        -- constructor; auto.
        -- constructor; [exact Hgap|].
           eapply Forall_impl; [exact IH2|].
           simpl. intros r Hr. unfold SEND_INTERVAL in *. lra.
Qed.

(** Spaced reports: at most one in a window of [SEND_INTERVAL]. *)
Lemma spaced_window reports w :
  spaced reports -> (reportsInWindow w reports <= 1)%nat.
Proof.
  unfold spaced, reportsInWindow.
  induction 1 as [|a l Hl IH Ha]; simpl; [lia|].
  destruct (inWindow w a) eqn:Hw; [|exact IH].
  assert (List.filter (inWindow w) l = []) as ->; [|simpl; lia].
  clear IH Hl. induction l as [|b l IHl]; [reflexivity|].
  inversion Ha as [|? ? Hab Hrest]; subst. simpl.
  unfold inWindow in Hw |- *.
  apply andb_true_iff in Hw as [Hw1 Hw2].
  apply le_true in Hw1. apply lt_true in Hw2.
  rewrite (proj2 (lt_false (fst b) (w + SEND_INTERVAL))) by lra.
  rewrite andb_false_r. auto.
Qed.

(** C4: under both [sendPositionUpdate], whatever the sequence of
    position mutations, connection changes and send attempts, any window
    of SEND_INTERVAL = 100 ms holds at most one report and two reports
    are at least 100 ms apart; an attempt sends a report only when
    [now - lastSendTime >= 100] and the mesh is more than 0.01 from the
    last sent position on x or on z, and what it sends is the position
    clamped to the world bounds. *)
Theorem throttle_contract :
  SEND_INTERVAL = 100 /\
  (forall evs s w,
     let reports := snd (run Canvas.sendPositionUpdate evs s) in
     spaced reports /\ (reportsInWindow w reports <= 1)%nat) /\
  (forall evs s w,
     let reports := snd (run legacySend evs s) in
     spaced reports /\ (reportsInWindow w reports <= 1)%nat) /\
  (forall now ready sock s,
     let r := Canvas.sendPositionUpdate now ready sock s in
     snd r = [] \/ throughGate now s (fst r) (snd r)) /\
  (forall now s,
     let r := Legacy.sendPositionUpdate now s in
     snd r = [] \/ throughGate now s (fst r) (snd r)).
Proof.
  split; [reflexivity|].
  split; [|split; [|split]].
  - intros evs s w reports.
    destruct (run_spaced _ canvas_paced evs s) as [H _].
    split; [exact H | now apply spaced_window].
  - intros evs s w reports.
    destruct (run_spaced _ legacy_paced evs s) as [H _].
    split; [exact H | now apply spaced_window].
  - intros now ready sock s r.
    destruct (canvas_send_cases now ready sock s) as [(H & _)|H]; auto.
  - intros now s r.
    destruct (legacy_send_cases now s) as [(H & _)|H]; auto.
Qed.

(** Evaluation of the code on numerals. *)
Ltac abs_num :=
  repeat match goal with
  | |- context [Rabs ?x] =>
    first [ rewrite (Rabs_right x) by lra | rewrite (Rabs_left x) by lra ]
  end.

Ltac bound_num :=
  repeat first [ rewrite boundX_id by lra | rewrite boundZ_id by lra ].

Ltac js_eval :=
  repeat (progress (cbn -[Rplus Rminus Rmult Rdiv Ropp Rinv IZR
                          boundX boundZ JS.gt JS.lt JS.ge JS.le JS.neq
                          Rabs sqrt sin cos pow];
                    unfold JS.Math_abs; abs_num; js_cmp; bound_num)).

(** Reports do get sent.  Under components/GameCanvas.tsx the attempt at
    150 ms is held back and the one at 200 ms sends; under
    frontend/components/GameCanvas.tsx the attempt at 150 ms lowers the
    flag, and the one at 200 ms finds nothing to send. *)
Lemma threeAttempts_reports :
  snd (run legacySend threeAttempts initialRefs)
    = [(100, Vec3 1 1 0); (200, Vec3 2 1 0)] /\
  snd (run Canvas.sendPositionUpdate threeAttempts initialRefs)
    = [(100, Vec3 1 1 0)].
Proof.
  split.
  - unfold threeAttempts, legacySend, initialRefs, run, mutate,
      Legacy.sendPositionUpdate, SEND_INTERVAL.
    js_eval. reflexivity.
  - unfold threeAttempts, initialRefs, run, mutate,
      Canvas.sendPositionUpdate, SEND_INTERVAL.
    js_eval. reflexivity.
Qed.

(** C9, as stated, fails: the time gate is closed at 50 ms, nothing is
    sent, and the flag that was up is down afterwards; likewise behind
    the delta gate of the older file. *)
Lemma flag_lost_at_closed_gate :
  (movementChanged walkedRefs = true /\
   50 - lastSendTime walkedRefs < SEND_INTERVAL /\
   snd (Canvas.sendPositionUpdate 50 true (Sock true) walkedRefs) = [] /\
   movementChanged
     (fst (Canvas.sendPositionUpdate 50 true (Sock true) walkedRefs)) = false)
  /\
  (movementChanged nudgedRefs = true /\
   snd (Legacy.sendPositionUpdate 100 nudgedRefs) = [] /\
   movementChanged (fst (Legacy.sendPositionUpdate 100 nudgedRefs)) = false).
Proof.
  split.
  - split; [reflexivity|]. split; [unfold SEND_INTERVAL; simpl; lra|].
    unfold walkedRefs, initialRefs, mutate, Canvas.sendPositionUpdate,
      SEND_INTERVAL.
    js_eval. split; reflexivity.
  - split; [reflexivity|].
    unfold nudgedRefs, initialRefs, mutate, Legacy.sendPositionUpdate,
      SEND_INTERVAL.
    js_eval. split; reflexivity.
Qed.

(** C9, as the code has it.  A report lowers the flag.  In
    frontend/components/GameCanvas.tsx an attempt made with a mesh, a
    connection and a ready socket leaves the flag down whichever gate
    holds the report back, and an attempt that stops before that changes
    nothing.  In components/GameCanvas.tsx an attempt before a closed time
    gate changes nothing, so the flag persists, and an attempt made with
    a mesh and a connection behind an open time gate leaves the flag
    down even when the delta gate holds the report back. *)
Theorem flag_after_attempt :
  (forall now ready sock s,
     let r := Canvas.sendPositionUpdate now ready sock s in
     (snd r <> [] -> movementChanged (fst r) = false) /\
     (playerRef s <> None -> isConnected s = true -> ready = true ->
      movementChanged (fst r) = false) /\
     (playerRef s = None \/ isConnected s = false \/ ready = false ->
      r = (s, []))) /\
  (forall now s,
     let r := Legacy.sendPositionUpdate now s in
     (snd r <> [] -> movementChanged (fst r) = false) /\
     (now - lastSendTime s < SEND_INTERVAL -> r = (s, [])) /\
     (playerRef s <> None -> isConnected s = true ->
      SEND_INTERVAL <= now - lastSendTime s ->
      movementChanged (fst r) = false)).
Proof.
  split.
  - intros now ready sock s r. subst r. split; [|split].
    + intros Hout.
      destruct (canvas_send_cases now ready sock s) as [(H & _)|H];
        [contradiction|].
      destruct H as (_ & _ & _ & _ & _ & _ & _ & _ & _ & H). exact H.
    + intros Hp Hc ->. unfold Canvas.sendPositionUpdate.
      destruct (playerRef s); [|contradiction]. rewrite Hc. simpl.
      destruct (movementChanged s) eqn:Hm; simpl; [|exact Hm].
      destruct (JS.ge _ _); [|reflexivity].
      destruct (_ || _); [|reflexivity].
      destruct sock as [| |[|]]; reflexivity.
    + unfold Canvas.sendPositionUpdate.
      intros [Hp|[Hc| ->]].
      * now rewrite Hp.
      * rewrite Hc. now destruct (playerRef s).
      * destruct (playerRef s); [|reflexivity].
        now destruct (isConnected s).
  - intros now s r. subst r. split; [|split].
    + intros Hout.
      destruct (legacy_send_cases now s) as [(H & _)|H]; [contradiction|].
      destruct H as (_ & _ & _ & _ & _ & _ & _ & _ & _ & H). exact H.
    + intros Ht. unfold Legacy.sendPositionUpdate.
      rewrite (proj2 (ge_false _ _)) by exact Ht.
      destruct (playerRef s); [|reflexivity].
      now destruct (_ || _).
    + intros Hp Hc Ht. unfold Legacy.sendPositionUpdate.
      destruct (playerRef s); [|contradiction]. rewrite Hc. simpl.
      destruct (movementChanged s) eqn:Hm; simpl; [|exact Hm].
      rewrite (proj2 (ge_true _ _)) by exact Ht.
      now destruct (_ || _).
Qed.

(** ** AnomalyGuard: [detectAnomalousMovement] *)

Lemma index_Some {A} (l : list A) (i : Z) (x : A) :
  JS.index l i = Some x <-> (0 <= i)%Z /\ l !! Z.to_nat i = Some x.
Proof.
  unfold JS.index. destruct (Z.ltb_spec i 0); split.
  - discriminate.
  - intros [? _]; lia.
  - auto.
  - now intros [_ ?].
Qed.

Lemma len_insert {A} (l : list A) (i : nat) (x : A) :
  JS.len (<[ i := x ]> l) = JS.len l.
Proof. unfold JS.len. now rewrite length_insert. Qed.

(** Clamping to the rectangle does not move a point away from a point of
    the rectangle. *)
Lemma boundX_closer p c :
  -50 <= p <= 50 -> (boundX WORLD_BOUNDS c - p) ^ 2 <= (c - p) ^ 2.
Proof.
  intros Hp. unfold boundX, JS.Math_max, JS.Math_min, Rmax, Rmin; simpl.
  repeat destruct (Rle_dec _ _); nra.
Qed.

Lemma boundZ_closer p c :
  -50 <= p <= 50 -> (boundZ WORLD_BOUNDS c - p) ^ 2 <= (c - p) ^ 2.
Proof.
  intros Hp. unfold boundZ, JS.Math_max, JS.Math_min, Rmax, Rmin; simpl.
  repeat destruct (Rle_dec _ _); nra.
Qed.

(** The capped and clamped sample is within [maxAllowedDistance] of the
    previous one, when that one is inside the bounds. *)
Lemma capped_within (px pz lx lz : R) :
  -50 <= px <= 50 -> -50 <= pz <= 50 ->
  let distance := sqrt ((lx - px) ^ 2 + (lz - pz) ^ 2) in
  let maxAllowedDistance := MOVEMENT_SPEED * 2 in
  maxAllowedDistance < distance ->
  let cappedX := px + ((lx - px) / distance * maxAllowedDistance) in
  let cappedZ := pz + ((lz - pz) / distance * maxAllowedDistance) in
  sqrt ((boundX WORLD_BOUNDS cappedX - px) ^ 2 +
        (boundZ WORLD_BOUNDS cappedZ - pz) ^ 2) <= maxAllowedDistance.
Proof.
  intros Hpx Hpz distance maxAllowedDistance Hd cappedX cappedZ.
  assert (Hm : maxAllowedDistance = 0.3)
    by (unfold maxAllowedDistance, MOVEMENT_SPEED; lra).
  assert (Hdd : distance * distance = (lx - px) ^ 2 + (lz - pz) ^ 2)
    by (apply sqrt_sqrt, sqrt_sq_sum_nonneg).
  assert (Hpos : 0 < distance) by lra.
  pose proof (boundX_closer px cappedX Hpx) as Hx.
  pose proof (boundZ_closer pz cappedZ Hpz) as Hz.
  assert (Hc : (cappedX - px) ^ 2 + (cappedZ - pz) ^ 2
               = maxAllowedDistance * maxAllowedDistance).
  { unfold cappedX, cappedZ.
    replace ((px + (lx - px) / distance * maxAllowedDistance - px) ^ 2 +
             (pz + (lz - pz) / distance * maxAllowedDistance - pz) ^ 2)
      with (((lx - px) ^ 2 + (lz - pz) ^ 2) / (distance * distance)
            * (maxAllowedDistance * maxAllowedDistance))
      by (field; lra).
    rewrite <- Hdd. field. lra. }
  apply Rle_trans with (sqrt (maxAllowedDistance * maxAllowedDistance)).
  - apply sqrt_le_1_alt. lra.
  - rewrite sqrt_square; lra.
Qed.

(** In exact arithmetic, on a history whose samples are inside the world
    bounds, as [updatePlayerMovement] keeps them, the state a run of the
    guard yields is a fixed point of the guard.  The source computes in
    binary64, where this fails: see [Binary64] below. *)
Lemma guard_idempotent_exact (s s' : Refs) :
  historyInBounds s ->
  detectAnomalousMovement s = Some s' ->
  detectAnomalousMovement s' = Some s'.
Proof.
  intros Hinv Hs. pose proof Hs as Hs0.
  unfold detectAnomalousMovement in Hs.
  destruct (JS.index (positionHistory s) (JS.len (positionHistory s) - 1))
    as [latest|] eqn:Hl; [|discriminate].
  destruct (JS.index (positionHistory s) (JS.len (positionHistory s) - 2))
    as [previous|] eqn:Hp; [|discriminate].
  destruct (JS.gt ((s_time latest - s_time previous) / 1000) 0) eqn:Ht;
    [|now inversion Hs; subst].
  destruct (playerRef s) as [player|] eqn:Hplayer; [|now inversion Hs; subst].
  destruct (JS.gt (_ / _) ANOMALOUS_SPEED_THRESHOLD) eqn:Hspeed;
    [|now inversion Hs; subst].
  destruct (JS.gt _ (MOVEMENT_SPEED * 2)) eqn:Hdist;
    [|now inversion Hs; subst].
  clear Hs0. injection Hs as <-.
  apply index_Some in Hl as [Hl0 Hl]. apply index_Some in Hp as [Hp0 Hp].
  assert (Hprev : inBounds WORLD_BOUNDS (s_x previous) (s_z previous)).
  { unfold historyInBounds in Hinv. rewrite Forall_lookup in Hinv.
    exact (Hinv _ _ Hp). }
  destruct Hprev as [Hpx Hpz]; simpl in Hpx, Hpz.
  match goal with
  | |- context [<[ _ := ?x ]> _] => remember x as corrected eqn:Hc
  end.
  unfold detectAnomalousMovement.
  cbn [positionHistory set_positionHistory playerRef set_playerRef].
  rewrite len_insert.
  replace (JS.index (<[ Z.to_nat (JS.len (positionHistory s) - 1)
                        := corrected ]> (positionHistory s))
                    (JS.len (positionHistory s) - 1))
    with (Some corrected).
  2:{ symmetry. apply index_Some. split; [exact Hl0|].
      apply list_lookup_insert_eq. now apply lookup_lt_Some in Hl. }
  replace (JS.index (<[ Z.to_nat (JS.len (positionHistory s) - 1)
                        := corrected ]> (positionHistory s))
                    (JS.len (positionHistory s) - 2))
    with (Some previous).
  2:{ symmetry. apply index_Some. split; [exact Hp0|].
      rewrite list_lookup_insert_ne by lia. exact Hp. }
  clear Ht Hspeed.
  destruct (JS.gt ((s_time corrected - s_time previous) / 1000) 0);
    [|reflexivity].
  destruct (JS.gt (_ / _) ANOMALOUS_SPEED_THRESHOLD); [|reflexivity].
  apply gt_true in Hdist.
  rewrite (proj2 (gt_false _ _)); [reflexivity|].
  subst corrected. cbn [s_x s_z].
  unfold JS.Math_sqrt, JS.Math_pow in *.
  now apply capped_within.
Qed.

Lemma guard_caps_jump : detectAnomalousMovement jumpRefs = Some cappedRefs.
Proof.
  unfold detectAnomalousMovement, jumpRefs, cappedRefs, initialRefs,
    JS.Math_sqrt.
  cbn [positionHistory set_positionHistory playerRef set_playerRef].
  change (JS.len _ - 1)%Z with 1%Z. change (JS.len _ - 2)%Z with 0%Z.
  change (JS.index _ 1) with (Some {| s_x := 3; s_z := 4; s_time := 16 |}).
  change (JS.index _ 0) with (Some {| s_x := 0; s_z := 0; s_time := 0 |}).
  cbn [s_x s_z s_time].
  replace (JS.Math_pow (3 - 0) 2 + JS.Math_pow (4 - 0) 2) with (5 * 5)
    by (unfold JS.Math_pow; lra).
  rewrite sqrt_square by lra.
  unfold ANOMALOUS_SPEED_THRESHOLD, MOVEMENT_SPEED.
  js_cmp.
  rewrite boundX_id, boundZ_id by lra.
  replace (0 + (3 - 0) / 5 * (0.15 * 2)) with 0.18 by lra.
  replace (0 + (4 - 0) / 5 * (0.15 * 2)) with 0.24 by lra.
  reflexivity.
Qed.

Lemma capped_pair_is_fixed_exact :
  detectAnomalousMovement cappedRefs = Some cappedRefs.
Proof.
  apply (guard_idempotent_exact jumpRefs cappedRefs).
  - unfold historyInBounds, jumpRefs, inBounds; simpl.
    repeat constructor; simpl; lra.
  - exact guard_caps_jump.
Qed.

(** *** The guard in binary64 *)

Lemma Math_min_cases a b :
  Binary64.Math_min a b = PrimFloat.nan \/
  Binary64.Math_min a b = a \/
  (Binary64.Math_min a b = b /\ PrimFloat.ltb a b = false).
Proof.
  unfold Binary64.Math_min.
  destruct (PrimFloat.is_nan a || PrimFloat.is_nan b); [now left|].
  destruct (PrimFloat.ltb a b) eqn:Hab; [now right; left|].
  destruct (PrimFloat.ltb b a); [now right; right|].
  destruct (PrimFloat.get_sign a); [now right; left | now right; right].
Qed.

Lemma Math_max_cases a b :
  Binary64.Math_max a b = PrimFloat.nan \/
  Binary64.Math_max a b = a \/
  (Binary64.Math_max a b = b /\ PrimFloat.ltb b a = false).
Proof.
  unfold Binary64.Math_max.
  destruct (PrimFloat.is_nan a || PrimFloat.is_nan b); [now left|].
  destruct (PrimFloat.ltb b a) eqn:Hba; [now right; left|].
  destruct (PrimFloat.ltb a b); [now right; right|].
  destruct (PrimFloat.get_sign a); [now right; right | now right; left].
Qed.

(** The clamping expression never yields a number below -50 or above
    50, whatever it is given. *)
Lemma clamp_notOutside v :
  let r := Binary64.Math_max Binary64.minX
             (Binary64.Math_min Binary64.maxX v) in
  PrimFloat.ltb r Binary64.minX = false /\
  PrimFloat.ltb Binary64.maxX r = false.
Proof.
  intros r. subst r.
  destruct (Math_max_cases Binary64.minX (Binary64.Math_min Binary64.maxX v))
    as [-> | [-> | [-> Hlo]]]; [split; reflexivity .. |].
  split; [exact Hlo|].
  destruct (Math_min_cases Binary64.maxX v) as [-> | [-> | [-> Hhi]]];
    [reflexivity .. | exact Hhi].
Qed.




(** The guard never raises on two samples or more, and it keeps the
    samples and the mesh inside the bounds. *)
Lemma guard_keeps_bounds (s : Refs) :
  (2 <= List.length (positionHistory s))%nat ->
  historyInBounds s ->
  playerInBounds WORLD_BOUNDS (playerRef s) ->
  exists s',
    detectAnomalousMovement s = Some s' /\
    historyInBounds s' /\
    playerInBounds WORLD_BOUNDS (playerRef s') /\
    List.length (positionHistory s') = List.length (positionHistory s).
Proof.
  intros Hlen Hh Hp. unfold detectAnomalousMovement.
  destruct (lookup_lt_is_Some_2 (positionHistory s)
              (Z.to_nat (JS.len (positionHistory s) - 1)))
    as [latest Hl]; [unfold JS.len; lia|].
  destruct (lookup_lt_is_Some_2 (positionHistory s)
              (Z.to_nat (JS.len (positionHistory s) - 2)))
    as [previous Hq]; [unfold JS.len; lia|].
  rewrite (proj2 (index_Some _ _ latest))
    by (split; [unfold JS.len; lia | exact Hl]).
  rewrite (proj2 (index_Some _ _ previous))
    by (split; [unfold JS.len; lia | exact Hq]).
  destruct (JS.gt _ 0); [|now exists s].
  destruct (playerRef s) as [player|] eqn:Hplayer;
    [|exists s; rewrite Hplayer; auto].
  destruct (JS.gt _ ANOMALOUS_SPEED_THRESHOLD);
    [|exists s; rewrite Hplayer; auto].
  destruct (JS.gt _ (MOVEMENT_SPEED * 2));
    [|exists s; rewrite Hplayer; auto].
  eexists. split; [reflexivity|]. split; [|split].
  - unfold historyInBounds. simpl. apply Forall_insert; [exact Hh|].
    apply bound_inBounds.
  - intros m Hm. simpl in Hm. injection Hm as <-. apply bound_inBounds.
  - simpl. apply length_insert.
Qed.

Lemma updatePlayerZone_frame x z s :
  playerRef (updatePlayerZone x z s) = playerRef s /\
  positionHistory (updatePlayerZone x z s) = positionHistory s /\
  movementChanged (updatePlayerZone x z s) = movementChanged s.
Proof. unfold updatePlayerZone. now destruct (bool_decide _). Qed.

(** components/GameCanvas.tsx: a frame of [updatePlayerMovement] never
    raises; it keeps the mesh and the samples inside the bounds and the
    history at five samples at most. *)
Lemma legacy_movement_keeps_bounds keys delta now s :
  playerInBounds WORLD_BOUNDS (playerRef s) ->
  historyInBounds s ->
  (List.length (positionHistory s) <= MAX_HISTORY_LENGTH)%nat ->
  exists s',
    Legacy.updatePlayerMovement keys delta now s = Some s' /\
    playerInBounds WORLD_BOUNDS (playerRef s') /\
    historyInBounds s' /\
    (List.length (positionHistory s') <= MAX_HISTORY_LENGTH)%nat.
Proof.
  intros Hp Hh Hn. unfold Legacy.updatePlayerMovement.
  destruct (playerRef s) as [player|] eqn:Hplayer;
    [|exists s; rewrite Hplayer; auto].
  destruct (_ || _); [|exists s; rewrite Hplayer; auto].
  destruct (_ || _); [|exists s; rewrite Hplayer; auto].
  match goal with
  | |- context [updatePlayerZone ?x ?z ?t] =>
    destruct (updatePlayerZone_frame x z t) as (Zp & Zh & _);
    set (s1 := updatePlayerZone x z t) in *
  end.
  simpl in Zp, Zh.
  match goal with
  | |- context [set_positionHistory ?h s1] => set (history := h)
  end.
  assert (Hhist : Forall (fun p => inBounds WORLD_BOUNDS (s_x p) (s_z p))
                         history
                  /\ (List.length history <= MAX_HISTORY_LENGTH)%nat).
  { subst history. rewrite Zh.
    match goal with
    | |- context [positionHistory s ++ [?x]] =>
      assert (Hall : Forall (fun p => inBounds WORLD_BOUNDS (s_x p) (s_z p))
                            (positionHistory s ++ [x]))
        by (apply Forall_app; split;
            [exact Hh | apply Forall_singleton; simpl; apply bound_inBounds]);
      pose proof (length_app (positionHistory s) [x]) as Hlen;
      destruct (Nat.ltb_spec MAX_HISTORY_LENGTH
                  (List.length (positionHistory s ++ [x]))) as [Hlt|Hle]
    end.
    - split.
      + destruct (positionHistory s ++ _); [constructor|].
        simpl. now inversion Hall.
      + destruct (positionHistory s ++ _); simpl in *; lia.
    - split; [exact Hall | exact Hle]. }
  destruct Hhist as [Hin Hmax].
  assert (Hp1 : playerInBounds WORLD_BOUNDS
                  (playerRef (set_positionHistory history s1))).
  { simpl. rewrite Zp. intros m Hm. injection Hm as <-.
    apply bound_inBounds. }
  destruct (Nat.leb_spec 2
              (List.length (positionHistory (set_positionHistory history s1))))
    as [H2|H2].
  - destruct (guard_keeps_bounds (set_positionHistory history s1) H2)
      as (s' & Hs' & Hh' & Hp' & Hl'); auto.
    exists s'. split; [exact Hs'|]. split; [exact Hp'|].
    split; [exact Hh'|]. rewrite Hl'. exact Hmax.
  - eexists. split; [reflexivity|]. split; [exact Hp1|].
    split; [exact Hin | exact Hmax].
Qed.

(** ** MovementIntegrator: [updatePlayerMovement] *)

Ltac sqrt_one :=
  repeat match goal with
  | |- context [sqrt ?a] =>
    replace a with (1 * 1) by lra; rewrite sqrt_square by lra
  end.

(** frontend/components/GameCanvas.tsx, camera angle 0, only W held: a
    frame moves the mesh by [MOVEMENT_SPEED] towards negative z, whatever
    its position. *)
Lemma canvas_w_step now s m :
  playerRef s = Some m -> isJumping s = false ->
  exists m',
    playerRef (Canvas.updatePlayerMovement wOnly 0 now s) = Some m' /\
    vx (position m') = vx (position m) /\
    vz (position m') = vz (position m) - MOVEMENT_SPEED /\
    isJumping (Canvas.updatePlayerMovement wOnly 0 now s) = false.
Proof.
  intros Hm Hj. unfold Canvas.updatePlayerMovement. rewrite Hm.
  unfold wOnly, THREE.normalize, THREE.length, THREE.divideScalar,
    THREE.multiplyScalar, THREE.sub, THREE.add, JS.Math_sqrt.
  cbn -[Rplus Rminus Rmult Rdiv Ropp Rinv IZR sin cos sqrt PI
        JS.gt JS.neq JS.le JS.Math_atan2].
  rewrite sin_0, cos_0. sqrt_one. js_cmp.
  cbn -[Rplus Rminus Rmult Rdiv Ropp Rinv IZR JS.Math_atan2].
  rewrite Hj. eexists. split; [reflexivity|].
  cbn -[Rplus Rminus Rmult Rdiv Ropp Rinv IZR JS.Math_atan2].
  rewrite Hj. unfold MOVEMENT_SPEED. repeat split; lra.
Qed.

Lemma canvas_w_walk now n :
  forall s m,
    playerRef s = Some m -> isJumping s = false ->
    exists m',
      playerRef (Nat.iter n (Canvas.updatePlayerMovement wOnly 0 now) s)
        = Some m' /\
      vx (position m') = vx (position m) /\
      vz (position m') = vz (position m) - MOVEMENT_SPEED * INR n /\
      isJumping (Nat.iter n (Canvas.updatePlayerMovement wOnly 0 now) s)
        = false.
Proof.
  induction n as [|n IH]; intros s m Hm Hj.
  - exists m. simpl. repeat split; auto; lra.
  - destruct (IH s m Hm Hj) as (m1 & H1 & Hx1 & Hz1 & Hj1).
    destruct (canvas_w_step now _ m1 H1 Hj1) as (m2 & H2 & Hx2 & Hz2 & Hj2).
    exists m2. rewrite S_INR. cbn [Nat.iter nat_rect].
    split; [exact H2|]. split; [lra|]. split; [lra | exact Hj2].
Qed.

(** C1, at the input where the code departs from it: in
    frontend/components/GameCanvas.tsx the mesh starts inside the bounds
    at (0, 1, 0), and with W held at camera angle 0 it stands at
    z = -50.1 after 334 frames, below minZ = -50. *)
Theorem canvas_walks_out_of_bounds :
  playerInBounds WORLD_BOUNDS (playerRef initialRefs) /\
  exists m,
    playerRef (Nat.iter 334 (Canvas.updatePlayerMovement wOnly 0 0)
                 initialRefs) = Some m /\
    vx (position m) = 0 /\
    vz (position m) = -50.1 /\
    ~ inBounds WORLD_BOUNDS (vx (position m)) (vz (position m)).
Proof.
  split.
  - intros m Hm. injection Hm as <-. unfold inBounds; simpl. lra.
  - destruct (canvas_w_walk 0 334 initialRefs initialMesh
                eq_refl eq_refl) as (m & Hm & Hx & Hz & _).
    rewrite INR_IZR_INZ in Hz. change (Z.of_nat 334) with 334%Z in Hz.
    unfold MOVEMENT_SPEED in Hz. simpl in Hx, Hz.
    exists m. split; [exact Hm|]. split; [lra|]. split; [lra|].
    unfold inBounds; simpl. lra.
Qed.

Lemma div_le_1 (a l : R) : 0 < l -> a <= l -> a / l <= 1.
Proof.
  intros Hl Ha. apply Rmult_le_reg_r with l; [exact Hl|].
  unfold Rdiv. rewrite Rmult_assoc, Rinv_l by lra. lra.
Qed.

(** A normalised vector scaled by [k] is at most [k] long on x-z. *)
Lemma normalized_step (v : Vector3) (k : R) :
  0 <= k -> 0 < THREE.length v ->
  let step := THREE.multiplyScalar (THREE.normalize v) k in
  sqrt (vx step ^ 2 + vz step ^ 2) <= k.
Proof.
  intros Hk Hpos step. subst step.
  unfold THREE.normalize. rewrite (proj2 (neq_true _ _)) by lra.
  set (len := THREE.length v) in *.
  assert (Hlen : len * len = vx v * vx v + vy v * vy v + vz v * vz v).
  { unfold len, THREE.length, JS.Math_sqrt. apply sqrt_sqrt. nra. }
  unfold THREE.divideScalar, THREE.multiplyScalar; simpl.
  apply Rle_trans with (sqrt (k * k)); [|rewrite sqrt_square; lra].
  apply sqrt_le_1_alt.
  replace ((vx v * (1 / len) * k) * (vx v * (1 / len) * k * 1) +
           (vz v * (1 / len) * k) * (vz v * (1 / len) * k * 1))
    with ((vx v * vx v + vz v * vz v) / (len * len) * (k * k))
    by (field; lra).
  assert (Hq : (vx v * vx v + vz v * vz v) / (len * len) <= 1).
  { apply div_le_1; nra. }
  nra.
Qed.

(** A vector of length 0 does not move the mesh. *)
Lemma null_step (v : Vector3) :
  THREE.length v <= 0 -> vx v = 0 /\ vz v = 0.
Proof.
  unfold THREE.length, JS.Math_sqrt. intros H.
  assert (Hs : sqrt (vx v * vx v + vy v * vy v + vz v * vz v) = 0)
    by (pose proof (sqrt_pos (vx v * vx v + vy v * vy v + vz v * vz v)); lra).
  apply sqrt_eq_0 in Hs; [|nra]. split; nra.
Qed.

(** frontend/components/GameCanvas.tsx normalises: whatever the keys and
    the camera angle, a frame moves the mesh by at most [MOVEMENT_SPEED]
    on x-z. *)
Lemma canvas_step_at_most_speed keys cameraAngle now s m :
  playerRef s = Some m ->
  exists m',
    playerRef (Canvas.updatePlayerMovement keys cameraAngle now s) = Some m' /\
    distXZ (position m) (position m') <= MOVEMENT_SPEED.
Proof.
  intros Hm. unfold Canvas.updatePlayerMovement. rewrite Hm. cbv zeta.
  match goal with
  | |- context [THREE.length ?v] => generalize v; intros movement
  end.
  assert (Hstep :
    exists step,
      sqrt (vx step ^ 2 + vz step ^ 2) <= MOVEMENT_SPEED /\
      step = THREE.multiplyScalar
               (if JS.gt (THREE.length movement) 0
                then THREE.normalize movement else movement) MOVEMENT_SPEED).
  { eexists; split; [|reflexivity]. destruct (JS.gt _ 0) eqn:Hlen.
    - apply gt_true in Hlen.
      apply normalized_step; [unfold MOVEMENT_SPEED; lra | exact Hlen].
    - apply gt_false in Hlen. destruct (null_step _ Hlen) as [Hx Hz].
      unfold THREE.multiplyScalar; cbn [vx vz]. rewrite Hx, Hz.
      match goal with
      | |- sqrt ?a <= _ => replace a with 0 by lra
      end.
      rewrite sqrt_0. unfold MOVEMENT_SPEED; lra. }
  destruct Hstep as (step & Hstep & Hdef).
  assert (Hgoal :
    forall x y z : R,
      sqrt ((vx (position m) + vx step - vx (position m)) ^ 2 +
            (vz (position m) + vz step - vz (position m)) ^ 2)
      <= MOVEMENT_SPEED).
  { intros _ _ _.
    replace (vx (position m) + vx step - vx (position m)) with (vx step)
      by lra.
    replace (vz (position m) + vz step - vz (position m)) with (vz step)
      by lra.
    exact Hstep. }
  destruct (JS.gt (THREE.length movement) 0);
    cbv beta iota; rewrite <- Hdef; clear Hdef;
    cbn [isJumping jumpVelocity set_lastUpdateTime];
    destruct (isJumping s); try destruct (JS.le _ 1);
    cbn [playerRef set_jump set_playerRef];
    (eexists; split; [reflexivity|]);
    unfold distXZ; cbn [position set_position set_rotation_y vx vz];
    apply Hgoal; exact 0.
Qed.

Lemma bound_inBounds_any (b : Bounds) (x z : R) :
  minX b <= maxX b -> minZ b <= maxZ b ->
  inBounds b (boundX b x) (boundZ b z).
Proof.
  intros Hx Hz.
  unfold inBounds, boundX, boundZ, JS.Math_max, JS.Math_min, Rmax, Rmin.
  repeat destruct (Rle_dec _ _); lra.
Qed.

(** frontend/hooks/usePlayerMovement.ts clamps: a frame keeps the mesh
    inside the bounds, whatever the input, the camera angle and the
    constants. *)
Lemma hook_movement_keeps_bounds
    (F G J Y : R) (b : Bounds) cameraAngle inputState h :
  minX b <= maxX b -> minZ b <= maxZ b ->
  playerInBounds b (h_playerRef h) ->
  playerInBounds b
    (h_playerRef
       (fst (Hook.updatePlayerMovement F G J Y b cameraAngle inputState h))).
Proof.
  intros Hx Hz Hin. unfold Hook.updatePlayerMovement.
  destruct (h_playerRef h) as [playerMesh|] eqn:Hp;
    [|intros m Hm; discriminate Hm].
  specialize (Hin playerMesh eq_refl).
  pose proof (bound_inBounds_any b) as Hb.
  intros m.
  repeat match goal with
  | |- context [if ?c then _ else _] => destruct c
  end;
  cbn [fst h_playerRef]; intros Hm; injection Hm as <-;
  cbn [position set_position set_rotation_y vx vz];
  first [ exact Hin | apply Hb; assumption ].
Qed.

Ltac hook_eval :=
  unfold Hook.updatePlayerMovement, initialHookRefs, initialMesh,
    forwardOnly, forwardRight;
  cbn -[Rplus Rminus Rmult Rdiv Ropp Rinv IZR sin cos PI boundX boundZ
        JS.neq JS.gt JS.le JS.rem JS.Math_atan2 JS.Math_abs];
  rewrite ?Rplus_0_l, ?sin_0, ?cos_0, ?sin_PI2, ?cos_PI2;
  js_cmp;
  cbn -[Rplus Rminus Rmult Rdiv Ropp Rinv IZR boundX boundZ
        JS.neq JS.gt JS.le JS.rem JS.Math_atan2 JS.Math_abs];
  bound_num; js_cmp;
  cbn -[Rplus Rminus Rmult Rdiv Ropp Rinv IZR boundX boundZ
        JS.neq JS.gt JS.le JS.rem JS.Math_atan2 JS.Math_abs];
  match goal with
  | |- context [if ?c then _ else _] => destruct c
  | _ => idtac
  end;
  cbn -[Rplus Rminus Rmult Rdiv Ropp Rinv IZR].

(** C8, at the input where the code departs from it: the hook scales
    the summed vector without normalising it.  From (0, 0), camera angle
    0, forward alone moves the mesh by the speed constant, and forward
    with right moves it to (F, -F), further than the speed constant. *)
Theorem hook_diagonal_exceeds_speed (F G J Y : R) :
  0 < F -> F <= 50 ->
  (exists m1,
     h_playerRef (fst (Hook.updatePlayerMovement F G J Y WORLD_BOUNDS 0
                         forwardOnly initialHookRefs)) = Some m1 /\
     distXZ (position initialMesh) (position m1) = F) /\
  (exists m2,
     h_playerRef (fst (Hook.updatePlayerMovement F G J Y WORLD_BOUNDS 0
                         forwardRight initialHookRefs)) = Some m2 /\
     vx (position m2) = F /\ vz (position m2) = - F /\
     F < distXZ (position initialMesh) (position m2)).
Proof.
  intros HF HF50. split.
  - hook_eval; (eexists; split; [reflexivity|]);
      apply distXZ_eq; simpl; lra.
  - hook_eval; (eexists; split; [reflexivity|]);
      (split; [simpl; lra|]); (split; [simpl; lra|]);
      unfold distXZ; simpl;
      rewrite <- (sqrt_square F) at 1 by lra;
      apply sqrt_lt_1_alt; nra.
Qed.

Lemma hook_diagonal_exceeds_speed_witness :
  (exists m1,
     h_playerRef (fst (Hook.updatePlayerMovement 0.15 0.015 0.3 1
                         WORLD_BOUNDS 0 forwardOnly initialHookRefs))
       = Some m1 /\
     distXZ (position initialMesh) (position m1) = 0.15) /\
  (exists m2,
     h_playerRef (fst (Hook.updatePlayerMovement 0.15 0.015 0.3 1
                         WORLD_BOUNDS 0 forwardRight initialHookRefs))
       = Some m2 /\
     vx (position m2) = 0.15 /\ vz (position m2) = - (0.15) /\
     0.15 < distXZ (position initialMesh) (position m2)).
Proof.
  apply (hook_diagonal_exceeds_speed 0.15 0.015 0.3 1); lra.
Defined.

(** * Further properties *)

(** ** The registry of the frontend file *)

Lemma cleanup_fold_id (valid : gset string) (ids : list string) (s : Refs) :
  dom (playersRef s) ⊆ valid ->
  foldl (fun s playerId =>
           if bool_decide (playerId ∉ valid)
           then set_playersRef (delete playerId (playersRef s)) s
           else s) s ids = s.
Proof.
  intros Hdom. induction ids as [|id ids IH]; [reflexivity|].
  simpl. case_bool_decide as Hid; [|exact IH].
  assert (Hnone : playersRef s !! id = None).
  { apply not_elem_of_dom. set_solver. }
  rewrite (delete_id _ _ Hnone).
  replace (set_playersRef (playersRef s) s) with s by now destruct s.
  exact IH.
Qed.

Lemma cleanupPlayerMeshes_id socket_id scenePlayerIds s :
  CanvasSocket.cleanupPlayerMeshes socket_id scenePlayerIds s = s.
Proof.
  unfold CanvasSocket.cleanupPlayerMeshes.
  apply cleanup_fold_id. set_solver.
Qed.

(** X1: the periodic clean-up never changes the registry [playersRef]:
    the only ids it deletes from it are ids that are not its keys; nor
    does it write any other ref of [Refs].  A roster snapshot, which
    starts with a clean-up, therefore yields the same registry whatever
    the scene holds.  What the clean-up removes from the scene and from
    [nameLabelsRef], the map of the CSS2D labels, is outside [Refs] and
    is not covered. *)
Theorem cleanup_keeps_registry
    (socket_id : option string) (scenePlayerIds : list string)
    (players : list Player) (s : Refs) :
  CanvasSocket.cleanupPlayerMeshes socket_id scenePlayerIds s = s /\
  CanvasSocket.initPlayers socket_id scenePlayerIds players s
  = CanvasSocket.initPlayers socket_id [] players s.
Proof.
  split; [apply cleanupPlayerMeshes_id|].
  unfold CanvasSocket.initPlayers. now rewrite !cleanupPlayerMeshes_id.
Qed.

Lemma createPlayerMesh_registry socket_id player s :
  playersRef (fst (Canvas.createPlayerMesh socket_id player s))
  = if bool_decide (socket_id = Some (p_id player)) then playersRef s
    else <[ p_id player :=
            {| position := Vec3 (p_x player) (p_y player) (p_z player);
               rotation_y := 0;
               userData_playerId := Some (p_id player);
               userData_playerName := Some (p_name player) |} ]>
           (playersRef s).
Proof.
  unfold Canvas.createPlayerMesh. case_bool_decide; [reflexivity|].
  simpl. apply map_eq. intros i.
  destruct (decide (p_id player = i)) as [->|Hne].
  - now rewrite !lookup_insert_eq.
  - now rewrite !lookup_insert_ne, lookup_delete_ne by exact Hne.
Qed.

Lemma placeLocalPlayer_registry player s :
  playersRef (CanvasSocket.placeLocalPlayer player s) = playersRef s.
Proof. unfold CanvasSocket.placeLocalPlayer. now destruct (playerRef s). Qed.

(** The step of the loop of [initPlayers], on the registry. *)
Lemma initPlayers_step_registry socket_id player s :
  playersRef
    (if bool_decide (Some (p_id player) = socket_id)
     then CanvasSocket.placeLocalPlayer player s
     else fst (Canvas.createPlayerMesh socket_id player s))
  = if bool_decide (Some (p_id player) = socket_id) then playersRef s
    else <[ p_id player :=
            {| position := Vec3 (p_x player) (p_y player) (p_z player);
               rotation_y := 0;
               userData_playerId := Some (p_id player);
               userData_playerName := Some (p_name player) |} ]>
           (playersRef s).
Proof.
  case_bool_decide as Hown.
  - apply placeLocalPlayer_registry.
  - rewrite createPlayerMesh_registry.
    rewrite bool_decide_eq_false_2; [reflexivity|]. congruence.
Qed.

Lemma initPlayers_fold_dom socket_id players :
  forall s,
    dom (playersRef
           (foldl (fun s player =>
                     if bool_decide (Some (p_id player) = socket_id)
                     then CanvasSocket.placeLocalPlayer player s
                     else fst (Canvas.createPlayerMesh socket_id player s))
                  s players))
    = dom (playersRef s) ∪ remoteIds socket_id players.
Proof.
  induction players as [|p ps IH]; intros s.
  - unfold remoteIds. simpl. set_solver.
  - cbn [foldl]. rewrite IH, initPlayers_step_registry.
    unfold remoteIds. cbn [List.filter].
    case_bool_decide as Hown; cbn [negb List.map list_to_set].
    + reflexivity.
    + rewrite dom_insert_L. set_solver.
Qed.

(** X2: a roster snapshot only adds: afterwards the keys of the registry
    are the keys it had before together with the roster ids other than
    the local player's.  No entry absent from the snapshot is removed,
    and the local player's id is not added. *)
Theorem initPlayers_only_adds
    (socket_id : option string) (scenePlayerIds : list string)
    (players : list Player) (s : Refs) :
  dom (playersRef
         (fst (CanvasSocket.initPlayers socket_id scenePlayerIds players s)))
  = dom (playersRef s) ∪ remoteIds socket_id players.
Proof.
  unfold CanvasSocket.initPlayers. cbn [fst].
  rewrite cleanupPlayerMeshes_id. apply initPlayers_fold_dom.
Qed.

Lemma initPlayers_fold_lookup socket_id players :
  forall s id,
    id ∉ List.map p_id players ->
    playersRef
      (foldl (fun s player =>
                if bool_decide (Some (p_id player) = socket_id)
                then CanvasSocket.placeLocalPlayer player s
                else fst (Canvas.createPlayerMesh socket_id player s))
             s players) !! id
    = playersRef s !! id.
Proof.
  induction players as [|p ps IH]; intros s id Hid; [reflexivity|].
  cbn [foldl]. rewrite IH by set_solver.
  rewrite initPlayers_step_registry. case_bool_decide; [reflexivity|].
  apply lookup_insert_ne. set_solver.
Qed.

(** X3: after a roster snapshot whose ids are pairwise distinct, every
    roster player other than the local one is registered at the position
    and under the name the roster gives, whatever the registry held for
    that id before; ids outside the roster keep their mesh. *)
Theorem initPlayers_registers_roster
    (socket_id : option string) (scenePlayerIds : list string)
    (players : list Player) (s : Refs) :
  NoDup (List.map p_id players) ->
  let s' := fst (CanvasSocket.initPlayers socket_id scenePlayerIds players s) in
  (forall p, p ∈ players -> Some (p_id p) <> socket_id ->
     playersRef s' !! p_id p
     = Some {| position := Vec3 (p_x p) (p_y p) (p_z p);
               rotation_y := 0;
               userData_playerId := Some (p_id p);
               userData_playerName := Some (p_name p) |}) /\
  (forall id, id ∉ List.map p_id players ->
     playersRef s' !! id = playersRef s !! id).
Proof.
  intros Hnd s'. subst s'. unfold CanvasSocket.initPlayers. cbn [fst].
  rewrite cleanupPlayerMeshes_id. split.
  - revert s. induction players as [|q qs IH]; intros s p Hp Hown.
    + inversion Hp.
    + cbn [List.map] in Hnd. apply NoDup_cons in Hnd as [Hq Hnd].
      cbn [foldl]. apply elem_of_cons in Hp as [->|Hp].
      * rewrite initPlayers_fold_lookup by exact Hq.
        rewrite initPlayers_step_registry.
        rewrite bool_decide_eq_false_2 by exact Hown.
        apply lookup_insert_eq.
      * now apply IH.
  - intros id Hid. now apply initPlayers_fold_lookup.
Qed.

Lemma initPlayers_registers_roster_witness :
  let s' := fst (CanvasSocket.initPlayers (Some "me") [] rosterAB bobRefs) in
  (forall p, p ∈ rosterAB -> Some (p_id p) <> Some "me" ->
     playersRef s' !! p_id p
     = Some {| position := Vec3 (p_x p) (p_y p) (p_z p);
               rotation_y := 0;
               userData_playerId := Some (p_id p);
               userData_playerName := Some (p_name p) |}) /\
  (forall id, id ∉ List.map p_id rosterAB ->
     playersRef s' !! id = playersRef bobRefs !! id).
Proof.
  apply (initPlayers_registers_roster (Some "me") [] rosterAB bobRefs).
  apply (bool_decide_unpack _). reflexivity.
Defined.

Lemma refs_same_registry (s : Refs) : set_playersRef (playersRef s) s = s.
Proof. now destruct s. Qed.

Lemma set_playersRef_twice a b s :
  set_playersRef a (set_playersRef b s) = set_playersRef a s.
Proof. reflexivity. Qed.

(** X4: a join of a remote player leaves exactly one entry for its id,
    at the position and under the name of the event, whatever the
    registry held for that id, and the other entries keep their mesh: the
    removal of the old entry and the creation of the new one amount to
    one insertion.  A join carrying the local player's own id leaves the
    registry as it was. *)
Theorem playerJoined_registers
    (socket_id : option string) (player : Player) (s : Refs) :
  playersRef (fst (CanvasSocket.playerJoined socket_id player s))
  = if bool_decide (Some (p_id player) = socket_id) then playersRef s
    else <[ p_id player :=
            {| position := Vec3 (p_x player) (p_y player) (p_z player);
               rotation_y := 0;
               userData_playerId := Some (p_id player);
               userData_playerName := Some (p_name player) |} ]>
           (playersRef s).
Proof.
  unfold CanvasSocket.playerJoined. case_bool_decide as Hown.
  - destruct (playerRef s) eqn:Hp; cbn [fst]; [|reflexivity].
    apply placeLocalPlayer_registry.
  - cbn [fst]. rewrite createPlayerMesh_registry.
    rewrite bool_decide_eq_false_2 by congruence.
    destruct (playersRef s !! p_id player); [|reflexivity].
    cbn [playersRef set_playersRef]. apply insert_delete_eq.
Qed.

(** X5: a remote player that joins and then leaves is gone without a
    trace: when its id was not registered before, the refs after the
    departure are the refs before the join. *)
Theorem join_then_leave
    (socket_id : option string) (player : Player) (s : Refs) :
  Some (p_id player) <> socket_id ->
  playersRef s !! p_id player = None ->
  CanvasSocket.playerLeft socket_id (p_id player)
    (fst (CanvasSocket.playerJoined socket_id player s)) = s.
Proof.
  intros Hown Hnone.
  unfold CanvasSocket.playerLeft, CanvasSocket.playerJoined.
  rewrite !bool_decide_eq_false_2 by exact Hown. rewrite Hnone. cbn [fst].
  unfold Canvas.createPlayerMesh.
  rewrite bool_decide_eq_false_2 by congruence.
  cbn [fst playersRef set_playersRef]. rewrite lookup_insert_eq.
  rewrite delete_insert_eq, !(delete_id _ _ Hnone).
  rewrite set_playersRef_twice. apply refs_same_registry.
Qed.

Lemma join_then_leave_witness :
  CanvasSocket.playerLeft (Some "me") "ann"
    (fst (CanvasSocket.playerJoined (Some "me") annJoins bobRefs)) = bobRefs.
Proof.
  apply (join_then_leave (Some "me") annJoins bobRefs).
  - discriminate.
  - reflexivity.
Defined.

(** A departure removes the entry of the id that left and no other; a
    departure carrying the local player's own id changes nothing. *)
Lemma playerLeft_removes_one
    (socket_id : option string) (playerId : string) (s : Refs) :
  (Some playerId <> socket_id ->
   playersRef (CanvasSocket.playerLeft socket_id playerId s)
   = delete playerId (playersRef s)) /\
  (Some playerId = socket_id ->
   CanvasSocket.playerLeft socket_id playerId s = s).
Proof.
  unfold CanvasSocket.playerLeft. split; intros Hown.
  - rewrite bool_decide_eq_false_2 by exact Hown.
    destruct (playersRef s !! playerId) eqn:Hl; [reflexivity|].
    symmetry. now apply delete_id.
  - now rewrite bool_decide_eq_true_2 by exact Hown.
Qed.

Lemma deliver_keeps_own_out (own : string) (ev : RegistryEvent) (s : Refs) :
  playersRef s !! own = None ->
  playersRef (deliver (Some own) ev s) !! own = None.
Proof.
  intros Hnone. destruct ev; cbn [deliver].
  - unfold CanvasSocket.onConnect.
    destruct (_ <? _)%nat; cbn; [apply lookup_empty | exact Hnone].
  - unfold CanvasSocket.initPlayers. cbn [fst].
    rewrite cleanupPlayerMeshes_id. revert s Hnone.
    induction players as [|p ps IH]; intros s Hnone; [exact Hnone|].
    cbn [foldl]. apply IH. rewrite initPlayers_step_registry.
    case_bool_decide as Hown; [exact Hnone|].
    rewrite lookup_insert_ne; [exact Hnone | congruence].
  - unfold CanvasSocket.playerJoined. case_bool_decide as Hown.
    + destruct (playerRef s); cbn [fst]; [|exact Hnone].
      now rewrite placeLocalPlayer_registry.
    + cbn [fst]. rewrite createPlayerMesh_registry.
      rewrite bool_decide_eq_false_2 by congruence.
      rewrite lookup_insert_ne by congruence.
      destruct (playersRef s !! p_id player); [|exact Hnone].
      cbn. rewrite lookup_delete_ne; [exact Hnone | congruence].
  - unfold CanvasSocket.playerLeft. case_bool_decide as Hown; [exact Hnone|].
    destruct (playersRef s !! playerId); [|exact Hnone].
    cbn. rewrite lookup_delete_ne; [exact Hnone | congruence].
  - unfold Canvas.playerMoved.
    destruct (Canvas.isOwnId _ _) eqn:Hown; [exact Hnone|].
    destruct (playersRef s !! d_id data) eqn:Hl; cbn; [|exact Hnone].
    rewrite lookup_insert_ne; [exact Hnone|].
    intros <-. congruence.
  - unfold Canvas.getPlayerDataCallback.
    destruct playerData as [pd|]; rewrite createPlayerMesh_registry;
      case_bool_decide as Hd; try exact Hnone;
      (rewrite lookup_insert_ne; [exact Hnone|]; congruence).
  - now rewrite cleanupPlayerMeshes_id.
Qed.

(** X6: the local player never enters its own registry: whatever the
    socket delivers (connections, rosters, joins, departures, moves,
    answers to lookups, clean-ups), an id equal to [socket.id] that is
    not registered stays unregistered, also when a roster, a join or the
    server's answer to a lookup carries that id. *)
Theorem own_id_never_registered
    (own : string) (evs : list RegistryEvent) (s : Refs) :
  playersRef s !! own = None ->
  playersRef (deliverAll (Some own) evs s) !! own = None.
Proof.
  revert s. induction evs as [|ev evs IH]; intros s Hnone; [exact Hnone|].
  cbn [deliverAll foldl]. apply IH. now apply deliver_keeps_own_out.
Qed.

Lemma own_id_never_registered_witness :
  playersRef
    (deliverAll (Some "me")
       [ EvInitPlayers [] rosterAB;
         EvPlayerJoined {| p_id := "me"; p_name := "Me"; p_x := 0; p_y := 1;
                           p_z := 0; p_userId := "u0" |};
         EvPlayerData ownMove (Some {| p_id := "me"; p_name := "Me";
                                       p_x := 0; p_y := 1; p_z := 0;
                                       p_userId := "u0" |}) ]
       bobRefs) !! "me" = None.
Proof.
  apply (own_id_never_registered "me"). reflexivity.
Defined.

Lemma checkPlayersSync_elem playerIds s id :
  id ∈ CanvasSocket.checkPlayersSync playerIds s
  <-> id ∈ playerIds /\ playersRef s !! id = None.
Proof.
  unfold CanvasSocket.checkPlayersSync.
  rewrite !list_elem_of_In, filter_In, negb_true_iff, bool_decide_eq_false.
  rewrite <- eq_None_not_Some. reflexivity.
Qed.

(** X7: the reply to a sync check lists exactly the ids of the request
    that have no registry entry.  Right after a roster snapshot the only
    id of that roster a sync check can report is the local player's own,
    and right after a (re)connection every id of the request is
    reported. *)
Theorem sync_check_reports_missing
    (socket_id : option string) (scenePlayerIds playerIds : list string)
    (players : list Player) (s : Refs) :
  (forall id, id ∈ CanvasSocket.checkPlayersSync playerIds s
              <-> id ∈ playerIds /\ playersRef s !! id = None) /\
  (forall id,
     id ∈ CanvasSocket.checkPlayersSync (List.map p_id players)
            (fst (CanvasSocket.initPlayers socket_id scenePlayerIds players s))
     -> Some id = socket_id) /\
  CanvasSocket.checkPlayersSync playerIds (CanvasSocket.onConnect s)
  = playerIds.
Proof.
  split; [intros id; apply checkPlayersSync_elem|]. split.
  - intros id Hid. apply checkPlayersSync_elem in Hid as [Hin Hnone].
    apply not_elem_of_dom in Hnone.
    unfold CanvasSocket.initPlayers in Hnone. cbn [fst] in Hnone.
    rewrite cleanupPlayerMeshes_id, initPlayers_fold_dom in Hnone.
    destruct (decide (Some id = socket_id)) as [|Hne]; [assumption|].
    exfalso. apply Hnone. apply elem_of_union_r.
    unfold remoteIds. apply elem_of_list_to_set.
    apply list_elem_of_In, in_map_iff.
    apply list_elem_of_In, in_map_iff in Hin as (p & <- & Hp).
    exists p. split; [reflexivity|].
    apply filter_In. split; [exact Hp|].
    now rewrite bool_decide_eq_false_2.
  - assert (Hempty : playersRef (CanvasSocket.onConnect s) = ∅
                     \/ size (playersRef (CanvasSocket.onConnect s)) = 0%nat).
    { unfold CanvasSocket.onConnect.
      destruct (Nat.ltb_spec 0 (size (playersRef (set_isConnected true s))));
        [left; reflexivity | right; lia]. }
    assert (He : playersRef (CanvasSocket.onConnect s) = ∅).
    { destruct Hempty as [|H0]; [assumption|]. now apply map_size_empty_iff. }
    unfold CanvasSocket.checkPlayersSync. rewrite He.
    induction playerIds as [|i l IH]; [reflexivity|].
    cbn [List.filter]. rewrite lookup_empty.
    rewrite bool_decide_eq_false_2 by (intros [? ?]; discriminate).
    cbn. now rewrite IH.
Qed.

(** ** The registry of the older file *)

Lemma legacy_initPlayers_cons q qs s :
  LegacySocket.initPlayers (q :: qs) s
  = LegacySocket.initPlayers qs
      (match playersRef s !! p_id q with
       | Some _ => s
       | None => LegacySocket.createPlayerMesh q s
       end).
Proof. reflexivity. Qed.

Lemma legacy_initPlayers_known players :
  forall s,
    (forall p, p ∈ players -> is_Some (playersRef s !! p_id p)) ->
    LegacySocket.initPlayers players s = s.
Proof.
  induction players as [|q qs IH]; intros s Hall; [reflexivity|].
  rewrite legacy_initPlayers_cons.
  destruct (Hall q) as [m Hm]; [set_solver|]. rewrite Hm.
  apply IH. intros p Hp. apply Hall. set_solver.
Qed.

Lemma legacy_initPlayers_spec players :
  forall s,
    dom (playersRef (LegacySocket.initPlayers players s))
    = dom (playersRef s) ∪ list_to_set (List.map p_id players) /\
    (forall id m, playersRef s !! id = Some m ->
       playersRef (LegacySocket.initPlayers players s) !! id = Some m).
Proof.
  induction players as [|q qs IH]; intros s.
  - cbn. split; [set_solver | auto].
  - rewrite legacy_initPlayers_cons.
    destruct (playersRef s !! p_id q) as [mq|] eqn:Hq.
    + destruct (IH s) as [Hd Hk]. split; [|exact Hk].
      rewrite Hd. cbn [List.map list_to_set].
      apply elem_of_dom_2 in Hq. set_solver.
    + destruct (IH (LegacySocket.createPlayerMesh q s)) as [Hd Hk].
      split.
      * rewrite Hd. unfold LegacySocket.createPlayerMesh.
        cbn [playersRef set_playersRef List.map list_to_set].
        rewrite dom_insert_L. set_solver.
      * intros id m Hm. apply Hk.
        unfold LegacySocket.createPlayerMesh. cbn.
        rewrite lookup_insert_ne; [exact Hm | congruence].
Qed.

(** X8: in components/GameCanvas.tsx a roster snapshot adds the roster
    ids that are not registered, the local player's own id included when
    the roster carries it, and leaves every mesh already registered as it
    is; delivering the same snapshot again changes nothing. *)
Theorem legacy_initPlayers_adds_missing (players : list Player) (s : Refs) :
  dom (playersRef (LegacySocket.initPlayers players s))
  = dom (playersRef s) ∪ list_to_set (List.map p_id players) /\
  (forall id m, playersRef s !! id = Some m ->
     playersRef (LegacySocket.initPlayers players s) !! id = Some m) /\
  LegacySocket.initPlayers players (LegacySocket.initPlayers players s)
  = LegacySocket.initPlayers players s.
Proof.
  destruct (legacy_initPlayers_spec players s) as [Hd Hk].
  split; [exact Hd|]. split; [exact Hk|].
  apply legacy_initPlayers_known. intros p Hp.
  apply elem_of_dom. rewrite Hd. apply elem_of_union_r.
  apply elem_of_list_to_set, list_elem_of_In, in_map.
  now apply list_elem_of_In.
Qed.

(** A payload whose [x] is not a number is outside [MoveData]: the
    clamp yields NaN, the distance is NaN, the test [> 5] fails and the
    snap branch stores NaN in the mesh. *)
Lemma nan_move_is_stored :
  PrimFloat.is_nan
    (Binary64.vx (Binary64.moveKnownPlayer Binary64.nanMove
                    (Binary64.Vec3 PrimFloat.zero PrimFloat.one
                       PrimFloat.zero)))
  = true.
Proof. vm_compute. reflexivity. Qed.

(** X9: for a [playerMoved] whose x, y and z are numbers, the move
    handler itself never takes a registered mesh out of the world bounds:
    when every registered mesh is inside, every registered mesh is inside
    after the event, in both files.  (A payload with a coordinate that is
    not a number is not a [MoveData]: see [nan_move_is_stored].) *)
Theorem playerMoved_keeps_registry_inside
    (socket_id : option string) (data : MoveData) (s : Refs) :
  registryInBounds s ->
  registryInBounds (fst (Canvas.playerMoved socket_id data s)) /\
  registryInBounds (Legacy.playerMoved data s).
Proof.
  intros Hin.
  assert (Hk : forall m, playersRef s !! d_id data = Some m ->
             registryInBounds
               (set_playersRef
                  (<[ d_id data := moveKnownPlayer data m ]> (playersRef s)) s)).
  { intros m Hm. unfold registryInBounds. cbn.
    apply map_Forall_insert_2; [|exact Hin].
    apply moveKnownPlayer_inBounds. exact (Hin _ _ Hm). }
  unfold Canvas.playerMoved, Legacy.playerMoved. split.
  - destruct (Canvas.isOwnId _ _); [exact Hin|].
    destruct (playersRef s !! d_id data) eqn:Hm; cbn [fst]; auto.
  - destruct (playersRef s !! d_id data) eqn:Hm; auto.
Qed.

Lemma playerMoved_keeps_registry_inside_witness :
  registryInBounds (fst (Canvas.playerMoved (Some "me") bobMove bobRefs)) /\
  registryInBounds (Legacy.playerMoved bobMove bobRefs).
Proof.
  apply (playerMoved_keeps_registry_inside (Some "me") bobMove bobRefs).
  unfold registryInBounds, bobRefs. cbn.
  apply map_Forall_singleton. unfold inBounds; simpl. lra.
Defined.

(** ** World items *)

Lemma findIndex_cons dropId y l :
  Items.findIndex dropId (y :: l)
  = if decide (i_dropId y = dropId) then Some 0%nat
    else S <$> Items.findIndex dropId l.
Proof.
  unfold Items.findIndex. cbn. destruct (decide _); [reflexivity|].
  now destruct (list_find _ l) as [[i z]|].
Qed.

Lemma findIndex_absent dropId l :
  dropId ∉ List.map i_dropId l -> Items.findIndex dropId l = None.
Proof.
  induction l as [|y l IH]; intros Hl; [reflexivity|].
  rewrite findIndex_cons. cbn in Hl.
  destruct (decide _) as [He|Hne]; [set_solver|].
  rewrite IH; [reflexivity | set_solver].
Qed.

Lemma findIndex_first dropId l1 x l2 :
  dropId ∉ List.map i_dropId l1 -> i_dropId x = dropId ->
  Items.findIndex dropId (l1 ++ x :: l2) = Some (List.length l1).
Proof.
  intros Hl Hx. induction l1 as [|y l1 IH]; cbn [app List.length].
  - rewrite findIndex_cons. now rewrite decide_True.
  - rewrite findIndex_cons. cbn in Hl.
    rewrite decide_False by set_solver.
    rewrite IH; [reflexivity | set_solver].
Qed.

Lemma delete_middle {A} (l1 : list A) x l2 :
  delete (List.length l1) (l1 ++ x :: l2) = l1 ++ l2.
Proof.
  induction l1 as [|y l1 IH]; [reflexivity|].
  change (y :: delete (List.length l1) (l1 ++ x :: l2) = y :: (l1 ++ l2)).
  now f_equal.
Qed.

(** X10: [itemRemoved] takes out the first item that carries the drop
    id, and only that one: the items before it and after it stay, in
    their order, later items with the same drop id included. *)
Theorem itemRemoved_first_match
    (dropId : string) (l1 : list WorldItem) (x : WorldItem)
    (l2 : list WorldItem) :
  dropId ∉ List.map i_dropId l1 -> i_dropId x = dropId ->
  Items.itemRemoved dropId (l1 ++ x :: l2) = l1 ++ l2.
Proof.
  intros Hl Hx. unfold Items.itemRemoved.
  rewrite (findIndex_first _ _ _ _ Hl Hx). apply delete_middle.
Qed.

Lemma itemRemoved_first_match_witness :
  Items.itemRemoved "d2" ([logItem "d1"] ++ logItem "d2" :: [logItem "d2"])
  = [logItem "d1"] ++ [logItem "d2"].
Proof.
  apply (itemRemoved_first_match "d2" [logItem "d1"] (logItem "d2")).
  - cbn. set_solver.
  - reflexivity.
Defined.

(** X11: removing a drop id that no item carries leaves the list as it
    is, and an item dropped under a fresh id and then removed leaves the
    list as it was before the drop. *)
Theorem item_drop_then_remove (data : WorldItem) (l : list WorldItem) :
  i_dropId data ∉ List.map i_dropId l ->
  Items.itemRemoved (i_dropId data) l = l /\
  Items.itemRemoved (i_dropId data) (Items.itemDropped data l) = l.
Proof.
  intros Hl. unfold Items.itemRemoved, Items.itemDropped. split.
  - now rewrite findIndex_absent.
  - rewrite (findIndex_first _ _ _ _ Hl eq_refl).
    transitivity (l ++ []); [apply delete_middle | apply app_nil_r].
Qed.

Lemma item_drop_then_remove_witness :
  Items.itemRemoved "d3" [logItem "d1"; logItem "d2"]
  = [logItem "d1"; logItem "d2"] /\
  Items.itemRemoved "d3"
    (Items.itemDropped (logItem "d3") [logItem "d1"; logItem "d2"])
  = [logItem "d1"; logItem "d2"].
Proof.
  apply (item_drop_then_remove (logItem "d3") [logItem "d1"; logItem "d2"]).
  cbn. set_solver.
Defined.

(** ** Camera *)

Lemma handleMouse_inRange ev c :
  cameraInRange c -> cameraInRange (handleMouse ev c).
Proof.
  unfold cameraInRange. intros [Hd Ht].
  destruct ev; cbn [handleMouse].
  - unfold Camera.handleMouseDown. now destruct (_ =? _)%Z.
  - unfold Camera.handleMouseUp. now destruct (_ =? _)%Z.
  - unfold Camera.handleMouseMove. destruct (isMiddleMouseDown c); [|auto].
    cbn. split; [exact Hd|].
    unfold JS.Math_max, JS.Math_min, Rmax, Rmin.
    repeat destruct (Rle_dec _ _); lra.
  - unfold Camera.handleMouseWheel. cbn. split; [|exact Ht].
    unfold JS.Math_max, JS.Math_min, Rmax, Rmin.
    repeat destruct (Rle_dec _ _); lra.
Qed.

(** X12: whatever the mouse does, the zoom stays between 5 and 20 and
    the tilt between 0.1 and 0.9; the camera that [animate] places is
    then at horizontal distance [cameraDistance] from the mesh and
    between 2.6 and 7.4 above it. *)
Theorem camera_stays_in_range
    (evs : list MouseEvent) (c : CameraRefs) (playerPosition : Vector3) :
  cameraInRange c ->
  let c' := foldl (fun c ev => handleMouse ev c) c evs in
  cameraInRange c' /\
  distXZ playerPosition (Camera.cameraPosition playerPosition c')
  = cameraDistance c' /\
  2.6 <= vy (Camera.cameraPosition playerPosition c') - vy playerPosition
      <= 7.4.
Proof.
  intros Hc c'.
  assert (Hc' : cameraInRange c').
  { subst c'. revert c Hc. induction evs as [|ev evs IH]; intros c Hc;
      [exact Hc|]. cbn [foldl]. apply IH. now apply handleMouse_inRange. }
  split; [exact Hc'|]. destruct Hc' as [Hd Ht]. split.
  - apply distXZ_eq; [lra|]. cbn.
    pose proof (sin2_cos2 (cameraAngle c')) as Hsc. unfold Rsqr in Hsc.
    nra.
  - cbn. lra.
Qed.

Lemma camera_stays_in_range_witness :
  let c' :=
    foldl (fun c ev => handleMouse ev c) initialCamera
      [ MouseWheel 500; MouseDown 1 0 0; MouseMove 30 (-90) ] in
  cameraInRange c' /\
  distXZ (Vec3 0 1 0) (Camera.cameraPosition (Vec3 0 1 0) c')
  = cameraDistance c' /\
  2.6 <= vy (Camera.cameraPosition (Vec3 0 1 0) c') - vy (Vec3 0 1 0) <= 7.4.
Proof.
  apply (camera_stays_in_range _ initialCamera (Vec3 0 1 0)).
  unfold cameraInRange, initialCamera; cbn. lra.
Defined.

(** ** Chat bubbles *)

Lemma lookup_foldl_delete {A} (ids : list string) :
  forall (m : gmap string A) (k : string),
    foldl (fun bubbles playerId => delete playerId bubbles) m ids !! k
    = if decide (k ∈ ids) then None else m !! k.
Proof.
  induction ids as [|i ids IH]; intros m k.
  - cbn. now rewrite decide_False by apply not_elem_of_nil.
  - cbn [foldl]. rewrite IH.
    destruct (decide (k ∈ ids)) as [Hin|Hnin].
    + now rewrite decide_True by (now apply list_elem_of_further).
    + destruct (decide (i = k)) as [->|Hne].
      * rewrite decide_True by apply list_elem_of_here.
        apply lookup_delete_eq.
      * rewrite decide_False by (rewrite elem_of_cons; intuition congruence).
        now apply lookup_delete_ne.
Qed.

Lemma sweep_lookup now (chatBubbles : gmap string R) (k : string) :
  Chat.sweep now chatBubbles !! k
  = match chatBubbles !! k with
    | Some expiry => if JS.gt now expiry then None else Some expiry
    | None => None
    end.
Proof.
  unfold Chat.sweep. rewrite lookup_foldl_delete.
  destruct (decide _) as [Hin|Hnin].
  - apply list_elem_of_omap in Hin as ([j e] & Hje & Hsome).
    apply elem_of_map_to_list in Hje.
    destruct (JS.gt now e) eqn:Hg; [|discriminate].
    injection Hsome as ->. now rewrite Hje, Hg.
  - destruct (chatBubbles !! k) as [e|] eqn:Hk; [|reflexivity].
    destruct (JS.gt now e) eqn:Hg; [|reflexivity].
    exfalso. apply Hnin. apply list_elem_of_omap.
    exists (k, e). split; [now apply elem_of_map_to_list|].
    now rewrite Hg.
Qed.

(** X13: a chat bubble lives ten seconds.  A bubble created at time [t]
    is still there after a sweep at any time up to [t + 10000] and is
    gone after a sweep at any later time; in general a sweep at [now]
    keeps exactly the bubbles whose expiry time is not before [now], and
    a new bubble replaces the one the player had. *)
Theorem bubble_lifetime
    (now t : R) (playerId : string) (chatBubbles : gmap string R) :
  Chat.sweep now (Chat.createChatBubble t playerId chatBubbles) !! playerId
  = (if JS.gt now (t + 10000) then None else Some (t + 10000)) /\
  (forall j expiry,
     Chat.sweep now chatBubbles !! j = Some expiry
     <-> chatBubbles !! j = Some expiry /\ now <= expiry) /\
  (forall j, j <> playerId ->
     Chat.createChatBubble t playerId chatBubbles !! j = chatBubbles !! j).
Proof.
  split; [|split].
  - rewrite sweep_lookup. unfold Chat.createChatBubble.
    now rewrite lookup_insert_eq.
  - intros j e. rewrite sweep_lookup.
    destruct (chatBubbles !! j) as [e'|]; [|intuition discriminate].
    destruct (JS.gt now e') eqn:Hg.
    + apply gt_true in Hg. split; [discriminate|].
      intros [He Hle]. injection He as ->. lra.
    + apply gt_false in Hg. split.
      * intros He. injection He as ->. auto.
      * now intros [He _].
  - intros j Hj. unfold Chat.createChatBubble.
    now rewrite lookup_insert_ne, lookup_delete_ne by congruence.
Qed.

(** ** The throttle over whole runs *)

Lemma run_cons_attempt send now ready sock evs s :
  run send (Attempt now ready sock :: evs) s
  = (fst (run send evs (fst (send now ready sock s))),
     stamp now (snd (send now ready sock s))
     ++ snd (run send evs (fst (send now ready sock s)))).
Proof.
  cbn [run]. destruct (send now ready sock s) as [s1 out]. cbn [fst snd].
  now destruct (run send evs s1).
Qed.

Lemma throughGate_orderly now s s' out :
  throughGate now s s' out ->
  exists p, out = [EmitPlayerMove p] /\
    inBounds WORLD_BOUNDS (vx p) (vz p) /\
    lastSentPosition s' = p /\ lastSendTime s' = now /\ lastSendTime s <= now.
Proof.
  intros (player & _ & _ & Ht & _ & Hout & Hin & Hpos & Hnow & _).
  eexists. split; [exact Hout|]. split; [exact Hin|].
  split; [exact Hpos|]. split; [exact Hnow|].
  unfold SEND_INTERVAL in Ht. lra.
Qed.

Lemma canvas_orderly : orderly Canvas.sendPositionUpdate.
Proof.
  intros now ready sock s r.
  destruct (canvas_send_cases now ready sock s) as [H|H]; [left; exact H|].
  right. now apply throughGate_orderly in H.
Qed.

Lemma legacy_orderly : orderly legacySend.
Proof.
  intros now ready sock s r. unfold legacySend in *.
  destruct (legacy_send_cases now s) as [H|H]; [left; exact H|].
  right. now apply throughGate_orderly in H.
Qed.

Lemma last_cons_shift {A} (l : list A) :
  forall p d, List.last (p :: l) d = List.last l p.
Proof.
  induction l as [|a l IH]; intros p d; [reflexivity|].
  change (List.last (a :: l) d = List.last (a :: l) p).
  now rewrite !IH.
Qed.

Lemma run_orderly send :
  orderly send ->
  forall evs s,
    lastSendTime s <= lastSendTime (fst (run send evs s)) /\
    Forall (fun r => inBounds WORLD_BOUNDS (vx (snd r)) (vz (snd r)))
           (snd (run send evs s)) /\
    (inBounds WORLD_BOUNDS (vx (lastSentPosition s)) (vz (lastSentPosition s))
     -> inBounds WORLD_BOUNDS
          (vx (lastSentPosition (fst (run send evs s))))
          (vz (lastSentPosition (fst (run send evs s))))) /\
    lastSentPosition (fst (run send evs s))
    = List.last (List.map snd (snd (run send evs s))) (lastSentPosition s).
Proof.
  intros Hsend evs. induction evs as [|ev evs IH]; intros s.
  - cbn. split; [lra|]. split; [constructor|]. split; [auto | reflexivity].
  - destruct ev as [p|up|now ready sock].
    + apply (IH (mutate p s)).
    + apply (IH (set_isConnected up s)).
    + rewrite run_cons_attempt. cbn [fst snd].
      specialize (Hsend now ready sock s). cbn zeta in Hsend.
      destruct (IH (fst (send now ready sock s))) as (I1 & I2 & I3 & I4).
      destruct Hsend as [(Hout & Hclock & Hpos)|(p & Hout & Hin & Hpos & Hclock & Hle)];
        rewrite Hout; cbn [stamp omap app].
      * rewrite Hclock in I1. rewrite Hpos in I3, I4. auto.
      * rewrite Hclock in I1. rewrite Hpos in I3, I4.
        split; [lra|]. split; [constructor; [exact Hin | exact I2]|].
        split; [auto|].
        rewrite I4. cbn [List.map snd]. symmetry. apply last_cons_shift.
Qed.

(** X14: along any run of either throttle the clock [lastSendTime]
    never goes back, every position reported lies inside the world
    bounds, wherever the mesh stands, and [lastSentPosition] is the
    position of the last report, or what it was when nothing was sent. *)
Theorem throttle_run_invariants (evs : list ThrottleEvent) (s : Refs) :
  (let r := run Canvas.sendPositionUpdate evs s in
   lastSendTime s <= lastSendTime (fst r) /\
   Forall (fun rep => inBounds WORLD_BOUNDS (vx (snd rep)) (vz (snd rep)))
          (snd r) /\
   lastSentPosition (fst r)
   = List.last (List.map snd (snd r)) (lastSentPosition s)) /\
  (let r := run legacySend evs s in
   lastSendTime s <= lastSendTime (fst r) /\
   Forall (fun rep => inBounds WORLD_BOUNDS (vx (snd rep)) (vz (snd rep)))
          (snd r) /\
   lastSentPosition (fst r)
   = List.last (List.map snd (snd r)) (lastSentPosition s)).
Proof.
  split.
  - destruct (run_orderly _ canvas_orderly evs s) as (H1 & H2 & _ & H4).
    auto.
  - destruct (run_orderly _ legacy_orderly evs s) as (H1 & H2 & _ & H4).
    auto.
Qed.

(** ** Whole sessions of the older file *)

Lemma legacy_send_frame now s :
  playerRef (fst (Legacy.sendPositionUpdate now s)) = playerRef s /\
  positionHistory (fst (Legacy.sendPositionUpdate now s)) = positionHistory s /\
  playersRef (fst (Legacy.sendPositionUpdate now s)) = playersRef s.
Proof.
  unfold Legacy.sendPositionUpdate.
  destruct (playerRef s) eqn:Hp; [|cbn; auto].
  destruct (_ || _); [cbn; auto|].
  destruct (JS.ge _ _); [|cbn; auto].
  destruct (_ || _); cbn; auto.
Qed.

Lemma legacy_send_reported now s :
  Forall (fun p => inBounds WORLD_BOUNDS (vx p) (vz p))
         (reported (snd (Legacy.sendPositionUpdate now s))).
Proof.
  destruct (legacy_send_cases now s) as [(-> & _)|H]; [constructor|].
  destruct H as (player & _ & _ & _ & _ & -> & Hin & _).
  cbn. constructor; [exact Hin | constructor].
Qed.

Lemma reported_app out outs : reported (out ++ outs) = reported out ++ reported outs.
Proof. unfold reported. apply omap_app. Qed.

(** X15: a session of components/GameCanvas.tsx, frame after frame of
    movement followed by the report, never raises; the mesh and every
    sample of the history stay inside the world bounds, the history never
    holds more than five samples, and every position sent to the server
    lies inside the world bounds. *)
Theorem legacy_session_invariants (frames : list Frame) (s : Refs) :
  playerInBounds WORLD_BOUNDS (playerRef s) ->
  historyInBounds s ->
  (List.length (positionHistory s) <= MAX_HISTORY_LENGTH)%nat ->
  exists s' out,
    animateAll frames s = Some (s', out) /\
    playerInBounds WORLD_BOUNDS (playerRef s') /\
    historyInBounds s' /\
    (List.length (positionHistory s') <= MAX_HISTORY_LENGTH)%nat /\
    Forall (fun p => inBounds WORLD_BOUNDS (vx p) (vz p)) (reported out).
Proof.
  revert s. induction frames as [|f frames IH]; intros s Hp Hh Hn.
  - exists s, []. cbn. split; [reflexivity|]. split; [exact Hp|].
    split; [exact Hh|]. split; [exact Hn | constructor].
  - destruct (legacy_movement_keeps_bounds (f_keys f) (f_delta f) (f_now f)
                s Hp Hh Hn) as (s1 & Hs1 & Hp1 & Hh1 & Hn1).
    destruct (legacy_send_frame (f_now' f) s1) as (Fp & Fh & _).
    pose proof (legacy_send_reported (f_now' f) s1) as Hrep.
    cbn [animateAll]. unfold LegacySocket.animate. rewrite Hs1.
    destruct (Legacy.sendPositionUpdate (f_now' f) s1) as [s2 out].
    cbn [fst snd] in *.
    destruct (IH s2) as (s' & outs & Hs' & Hp' & Hh' & Hn' & Hrep').
    + now rewrite Fp.
    + unfold historyInBounds. now rewrite Fh.
    + now rewrite Fh.
    + rewrite Hs'. exists s', (out ++ outs).
      split; [reflexivity|]. split; [exact Hp'|]. split; [exact Hh'|].
      split; [exact Hn'|]. rewrite reported_app.
      apply Forall_app. split; assumption.
Qed.

Lemma legacy_session_invariants_witness :
  exists s' out,
    animateAll strollFrames initialRefs = Some (s', out) /\
    playerInBounds WORLD_BOUNDS (playerRef s') /\
    historyInBounds s' /\
    (List.length (positionHistory s') <= MAX_HISTORY_LENGTH)%nat /\
    Forall (fun p => inBounds WORLD_BOUNDS (vx p) (vz p)) (reported out).
Proof.
  apply (legacy_session_invariants strollFrames initialRefs).
  - intros m Hm. injection Hm as <-. unfold inBounds; simpl. lra.
  - constructor.
  - cbn. unfold MAX_HISTORY_LENGTH. lia.
Defined.

(** ** The hook over whole runs *)

(** X16: the hook never lets the mesh leave the rectangle it is given:
    when the bounds are well formed and the mesh starts inside, it is
    inside after any number of frames, whatever the inputs, the camera
    angles and the speed, gravity and jump constants. *)
Theorem hook_frames_keep_bounds
    (F G J Y : R) (b : Bounds) (inputs : list (R * PlayerInputState))
    (h : HookRefs) :
  minX b <= maxX b -> minZ b <= maxZ b ->
  playerInBounds b (h_playerRef h) ->
  playerInBounds b (h_playerRef (hookFrames F G J Y b inputs h)).
Proof.
  intros Hx Hz. revert h.
  induction inputs as [|i inputs IH]; intros h Hin; [exact Hin|].
  cbn [hookFrames foldl]. apply IH.
  now apply hook_movement_keeps_bounds.
Qed.

Lemma hook_frames_keep_bounds_witness :
  playerInBounds WORLD_BOUNDS
    (h_playerRef
       (hookFrames 60 0.015 0.3 1 WORLD_BOUNDS
          [ (0, forwardRight); (0, forwardRight) ] initialHookRefs)).
Proof.
  apply (hook_frames_keep_bounds 60 0.015 0.3 1 WORLD_BOUNDS).
  - simpl; lra.
  - simpl; lra.
  - intros m Hm. injection Hm as <-. unfold inBounds; simpl. lra.
Defined.

(** ** The movement of the frontend file *)

Lemma normalized_step_exact (v : Vector3) (k : R) :
  0 <= k -> 0 < THREE.length v -> vy v = 0 ->
  let step := THREE.multiplyScalar (THREE.normalize v) k in
  sqrt (vx step ^ 2 + vz step ^ 2) = k.
Proof.
  intros Hk Hpos Hy step. subst step.
  unfold THREE.normalize. rewrite (proj2 (neq_true _ _)) by lra.
  set (len := THREE.length v) in *.
  assert (Hlen : len * len = vx v * vx v + vz v * vz v).
  { unfold len, THREE.length, JS.Math_sqrt. rewrite sqrt_sqrt by nra.
    rewrite Hy. ring. }
  unfold THREE.divideScalar, THREE.multiplyScalar; simpl.
  replace ((vx v * (1 / len) * k) * (vx v * (1 / len) * k * 1) +
           (vz v * (1 / len) * k) * (vz v * (1 / len) * k * 1))
    with ((vx v * vx v + vz v * vz v) / (len * len) * (k * k))
    by (field; lra).
  rewrite <- Hlen.
  replace (len * len / (len * len) * (k * k)) with (k * k) by (field; lra).
  now apply sqrt_square.
Qed.

(** X17: in frontend/components/GameCanvas.tsx a frame either leaves x
    and z as they are or moves the mesh by exactly [MOVEMENT_SPEED] on
    x-z, whatever the keys held and the camera angle: a diagonal step is
    as long as a straight one. *)
Theorem canvas_step_is_speed_or_rest
    (keys : Keys) (cameraAngle now : R) (s : Refs) (m : Mesh) :
  playerRef s = Some m ->
  exists m',
    playerRef (Canvas.updatePlayerMovement keys cameraAngle now s) = Some m' /\
    ((vx (position m') = vx (position m) /\
      vz (position m') = vz (position m)) \/
     distXZ (position m) (position m') = MOVEMENT_SPEED).
Proof.
  intros Hm. unfold Canvas.updatePlayerMovement. rewrite Hm. cbv zeta.
  match goal with
  | |- context [THREE.length ?v] => set (movement := v)
  end.
  assert (Hy : vy movement = 0).
  { subst movement.
    destruct (k_w keys || k_ArrowUp keys), (k_s keys || k_ArrowDown keys),
      (k_d keys || k_ArrowRight keys), (k_a keys || k_ArrowLeft keys);
      cbn; lra. }
  clearbody movement.
  assert (Hstep :
    exists step,
      ((vx step = 0 /\ vz step = 0) \/
       sqrt (vx step ^ 2 + vz step ^ 2) = MOVEMENT_SPEED) /\
      step = THREE.multiplyScalar
               (if JS.gt (THREE.length movement) 0
                then THREE.normalize movement else movement) MOVEMENT_SPEED).
  { eexists; split; [|reflexivity]. destruct (JS.gt _ 0) eqn:Hlen.
    - right. apply gt_true in Hlen.
      apply normalized_step_exact;
        [unfold MOVEMENT_SPEED; lra | exact Hlen | exact Hy].
    - left. apply gt_false in Hlen. destruct (null_step _ Hlen) as [Hx Hz].
      unfold THREE.multiplyScalar; cbn [vx vz]. rewrite Hx, Hz. lra. }
  destruct Hstep as (step & Hstep & Hdef).
  assert (Hgoal :
    (vx (position m) + vx step = vx (position m) /\
     vz (position m) + vz step = vz (position m)) \/
    sqrt ((vx (position m) + vx step - vx (position m)) ^ 2 +
          (vz (position m) + vz step - vz (position m)) ^ 2)
    = MOVEMENT_SPEED).
  { destruct Hstep as [[Hx Hz]|Hs]; [left; lra|right].
    replace (vx (position m) + vx step - vx (position m)) with (vx step)
      by lra.
    replace (vz (position m) + vz step - vz (position m)) with (vz step)
      by lra.
    exact Hs. }
  destruct (JS.gt (THREE.length movement) 0);
    cbv beta iota; rewrite <- Hdef; clear Hdef;
    cbn [isJumping jumpVelocity set_lastUpdateTime];
    destruct (isJumping s); try destruct (JS.le _ 1);
    cbn [playerRef set_jump set_playerRef];
    (eexists; split; [reflexivity|]);
    unfold distXZ; cbn [position set_position set_rotation_y vx vz];
    exact Hgoal.
Qed.

Lemma canvas_step_is_speed_or_rest_witness :
  exists m',
    playerRef (Canvas.updatePlayerMovement wOnly 0.7 16 initialRefs)
      = Some m' /\
    ((vx (position m') = vx (position initialMesh) /\
      vz (position m') = vz (position initialMesh)) \/
     distXZ (position initialMesh) (position m') = MOVEMENT_SPEED).
Proof.
  apply (canvas_step_is_speed_or_rest wOnly 0.7 16 initialRefs initialMesh).
  reflexivity.
Defined.

Ltac sqrt_zero :=
  repeat match goal with
  | |- context [sqrt ?a] => replace a with 0 by ring; rewrite sqrt_0
  end.

(** X18: opposite keys cancel.  When forward is held with backward, or
    neither, and left with right, or neither, a frame of
    frontend/components/GameCanvas.tsx leaves x, z and the yaw of the mesh
    as they are, at every camera angle, and a frame of
    components/GameCanvas.tsx changes nothing at all. *)
Theorem cancelling_keys_do_not_move
    (keys : Keys) (cameraAngle delta now : R) (s : Refs) (m : Mesh) :
  cancelling keys ->
  playerRef s = Some m ->
  (exists m',
     playerRef (Canvas.updatePlayerMovement keys cameraAngle now s) = Some m' /\
     vx (position m') = vx (position m) /\
     vz (position m') = vz (position m) /\
     rotation_y m' = rotation_y m) /\
  Legacy.updatePlayerMovement keys delta now s = Some s.
Proof.
  intros [Hfb Hlr] Hm. split.
  - unfold Canvas.updatePlayerMovement. rewrite Hm, Hfb, <- Hlr.
    unfold THREE.length, JS.Math_sqrt.
    destruct (k_s keys || k_ArrowDown keys),
      (k_a keys || k_ArrowLeft keys);
      cbn -[Rplus Rminus Rmult Rdiv Ropp Rinv IZR sin cos sqrt PI
            JS.gt JS.neq JS.le JS.Math_atan2];
      sqrt_zero; js_cmp;
      cbn -[Rplus Rminus Rmult Rdiv Ropp Rinv IZR sin cos PI JS.le];
      destruct (isJumping s); try destruct (JS.le _ 1);
      (eexists; split; [reflexivity|]); cbn; repeat split; lra.
  - unfold Legacy.updatePlayerMovement. rewrite Hm, Hfb, Hlr.
    destruct (k_s keys || k_ArrowDown keys),
      (k_d keys || k_ArrowRight keys);
      unfold MOVEMENT_SPEED; js_cmp; reflexivity.
Qed.

Lemma cancelling_keys_do_not_move_witness :
  (exists m',
     playerRef (Canvas.updatePlayerMovement wAndS 0.7 16 initialRefs)
       = Some m' /\
     vx (position m') = vx (position initialMesh) /\
     vz (position m') = vz (position initialMesh) /\
     rotation_y m' = rotation_y initialMesh) /\
  Legacy.updatePlayerMovement wAndS 0.016 16 initialRefs = Some initialRefs.
Proof.
  apply (cancelling_keys_do_not_move wAndS 0.7 0.016 16 initialRefs
           initialMesh).
  - split; reflexivity.
  - reflexivity.
Defined.

Lemma canvas_height_step keys cameraAngle now s :
  heightAtLeast 1 (playerRef s) ->
  heightAtLeast 1
    (playerRef (Canvas.updatePlayerMovement keys cameraAngle now s)).
Proof.
  intros Hh. unfold Canvas.updatePlayerMovement.
  destruct (playerRef s) as [m|] eqn:Hm; [|now rewrite Hm].
  specialize (Hh m eq_refl). cbv zeta.
  destruct (JS.gt _ 0); cbv beta iota;
    cbn [isJumping jumpVelocity set_lastUpdateTime];
    destruct (isJumping s); try destruct (JS.le _ 1) eqn:Hle;
    cbn [playerRef set_jump set_playerRef];
    intros m' Hm'; injection Hm' as <-;
    cbn [position set_position set_rotation_y vy];
    try lra; apply le_false in Hle; cbn in Hle; lra.
Qed.

(** X19: in frontend/components/GameCanvas.tsx the mesh never sinks below
    the ground level 1: when it starts at height 1 or above it is at
    height 1 or above after any number of frames, jumping or not. *)
Theorem canvas_never_below_ground
    (inputs : list (Keys * R * R)) (s : Refs) :
  heightAtLeast 1 (playerRef s) ->
  heightAtLeast 1 (playerRef (canvasFrames inputs s)).
Proof.
  revert s. induction inputs as [|i inputs IH]; intros s Hh; [exact Hh|].
  cbn [canvasFrames foldl]. apply IH. now apply canvas_height_step.
Qed.

Lemma canvas_never_below_ground_witness :
  heightAtLeast 1
    (playerRef (canvasFrames [ (wOnly, 0, 16); (wAndS, 0.5, 32) ]
                  (set_jump true 0.3 initialRefs))).
Proof.
  apply (canvas_never_below_ground _ (set_jump true 0.3 initialRefs)).
  intros m Hm. injection Hm as <-. simpl. lra.
Defined.

(** ** The jump of the hook *)

(** One airborne frame: the mesh lands on [PLAYER_DEFAULT_Y] when the
    step would take it there or below, and otherwise rises or falls by
    the velocity, which gravity then lowers. *)
Lemma hook_airborne_step (F G J Y : R) (b : Bounds) cameraAngle inputState
    (h : HookRefs) (m : Mesh) :
  h_playerRef h = Some m -> h_isJumping h = true ->
  let h' := fst (Hook.updatePlayerMovement F G J Y b cameraAngle inputState h) in
  exists m',
    h_playerRef h' = Some m' /\
    ((vy (position m) + h_jumpVelocity h <= Y /\
      h_isJumping h' = false /\ vy (position m') = Y /\
      h_jumpVelocity h' = 0) \/
     (Y < vy (position m) + h_jumpVelocity h /\
      h_isJumping h' = true /\
      vy (position m') = vy (position m) + h_jumpVelocity h /\
      h_jumpVelocity h' = h_jumpVelocity h - G)).
Proof.
  intros Hm Hj h'. subst h'. unfold Hook.updatePlayerMovement.
  rewrite Hm, Hj, andb_false_r. cbv zeta beta iota.
  destruct (JS.le (vy (position m) + h_jumpVelocity h) Y) eqn:Hle.
  - apply le_true in Hle.
    repeat match goal with
    | |- context [if ?c then _ else _] => destruct c
    end;
    cbn [fst h_playerRef h_isJumping h_jumpVelocity];
    (eexists; split; [reflexivity|]);
    cbn [position set_position set_rotation_y vy];
    left; auto.
  - apply le_false in Hle.
    repeat match goal with
    | |- context [if ?c then _ else _] => destruct c
    end;
    cbn [fst h_playerRef h_isJumping h_jumpVelocity];
    (eexists; split; [reflexivity|]);
    cbn [position set_position set_rotation_y vy];
    right; auto.
Qed.

Lemma hookFrames_snoc F G J Y b inputs i h :
  hookFrames F G J Y b (inputs ++ [i]) h
  = fst (Hook.updatePlayerMovement F G J Y b (fst i) (snd i)
           (hookFrames F G J Y b inputs h)).
Proof. unfold hookFrames. now rewrite foldl_app. Qed.

(** An airborne run either has landed after some frame or follows the
    parabola of a constant gravity. *)
Lemma hook_airborne_run (F G J Y : R) (b : Bounds) (h : HookRefs) (m : Mesh) :
  h_playerRef h = Some m -> h_isJumping h = true ->
  forall inputs,
    (exists k, (1 <= k <= List.length inputs)%nat /\
               grounded Y (hookFrames F G J Y b (take k inputs) h)) \/
    (exists m',
       let n := INR (List.length inputs) in
       let h' := hookFrames F G J Y b inputs h in
       h_playerRef h' = Some m' /\ h_isJumping h' = true /\
       h_jumpVelocity h' = h_jumpVelocity h - n * G /\
       vy (position m')
       = vy (position m) + n * h_jumpVelocity h - G * n * (n - 1) / 2 /\
       ((1 <= List.length inputs)%nat -> Y < vy (position m'))).
Proof.
  intros Hm Hj inputs. induction inputs as [|i l IH] using rev_ind.
  - right. exists m. cbn. repeat split; auto; try lra. lia.
  - destruct IH as [(k & Hk & Hg)|(m1 & H1 & Hj1 & Hv1 & Hy1 & _)].
    + left. exists k. rewrite length_app. cbn. split; [lia|].
      rewrite take_app_le by lia. exact Hg.
    + cbv zeta in *.
      destruct (hook_airborne_step F G J Y b (fst i) (snd i) _ m1 H1 Hj1)
        as (m2 & H2 & [(Hle & Hj2 & Hy2 & Hv2)|(Hgt & Hj2 & Hy2 & Hv2)]).
      * left. exists (S (List.length l)). rewrite length_app. cbn.
        split; [lia|].
        rewrite take_ge by (rewrite length_app; cbn; lia).
        rewrite hookFrames_snoc. exists m2. auto.
      * right. exists m2. rewrite hookFrames_snoc, length_app.
        replace (List.length l + List.length [i])%nat
          with (S (List.length l)) by (cbn; lia).
        rewrite S_INR.
        split; [exact H2|]. split; [exact Hj2|].
        split; [rewrite Hv2, Hv1; lra|].
        split; [rewrite Hy2, Hy1, Hv1; lra|].
        intros _. rewrite Hy2. exact Hgt.
Qed.

(** A number of frames after which the parabola is back at the ground. *)
Lemma parabola_comes_down (G y v Y : R) :
  0 < G ->
  exists N : nat,
    (1 <= N)%nat /\
    y + INR N * v - G * INR N * (INR N - 1) / 2 <= Y.
Proof.
  intros HG.
  set (a := Rabs v). set (d := Rabs (y - Y)).
  assert (Ha : 0 <= a) by apply Rabs_pos.
  assert (Hd : 0 <= d) by apply Rabs_pos.
  set (r := 2 * (a + d) / G + 1).
  assert (Hr : 1 <= r).
  { unfold r. assert (0 <= 2 * (a + d) / G); [|lra].
    apply Rmult_le_pos; [lra|]. left. now apply Rinv_0_lt_compat. }
  destruct (archimed r) as [Hup _].
  assert (Hz : (0 < up r)%Z) by (apply lt_IZR; lra).
  exists (Z.to_nat (up r)).
  assert (Hn : INR (Z.to_nat (up r)) = IZR (up r)).
  { rewrite INR_IZR_INZ, Z2Nat.id by lia. reflexivity. }
  split; [lia|]. rewrite Hn. set (n := IZR (up r)) in *.
  assert (Hn1 : 1 <= n) by lra.
  assert (Hgn : a + d <= G * (n - 1) / 2).
  { assert (2 * (a + d) / G < n - 1) by (unfold r in Hup; lra).
    assert (2 * (a + d) < (n - 1) * G).
    { replace (2 * (a + d)) with (2 * (a + d) / G * G) by (field; lra).
      apply Rmult_lt_compat_r; lra. }
    lra. }
  assert (Hv : v <= a) by apply Rle_abs.
  assert (Hy : y - Y <= d) by apply Rle_abs.
  assert (n * v <= n * a) by (apply Rmult_le_compat_l; lra).
  assert (n * (a + d) <= n * (G * (n - 1) / 2))
    by (apply Rmult_le_compat_l; lra).
  assert (d <= n * d) by nra.
  lra.
Qed.

(** X20: every jump of the hook comes down.  From any airborne state,
    with a positive gravity, there is a number of frames within which
    the mesh has landed, whatever the inputs of those frames: it then
    stands exactly at [PLAYER_DEFAULT_Y], not jumping, with velocity 0. *)
Theorem hook_jump_lands (F G J Y : R) (b : Bounds) (h : HookRefs) (m : Mesh) :
  0 < G ->
  h_playerRef h = Some m -> h_isJumping h = true ->
  exists N : nat,
    forall inputs : list (R * PlayerInputState),
      List.length inputs = N ->
      exists k, (1 <= k <= N)%nat /\
                grounded Y (hookFrames F G J Y b (take k inputs) h).
Proof.
  intros HG Hm Hj.
  destruct (parabola_comes_down G (vy (position m)) (h_jumpVelocity h) Y HG)
    as (N & HN & Hpar).
  exists N. intros inputs Hlen.
  destruct (hook_airborne_run F G J Y b h m Hm Hj inputs)
    as [(k & Hk & Hg)|(m' & _ & _ & _ & Hy & Hab)].
  - exists k. rewrite Hlen in Hk. auto.
  - exfalso. rewrite Hlen in Hy, Hab. specialize (Hab HN). lra.
Qed.

Lemma hook_jump_lands_witness :
  exists N : nat,
    forall inputs : list (R * PlayerInputState),
      List.length inputs = N ->
      exists k, (1 <= k <= N)%nat /\
                grounded 1 (hookFrames 0.15 0.015 0.3 1 WORLD_BOUNDS
                              (take k inputs) airborneHookRefs).
Proof.
  apply (hook_jump_lands 0.15 0.015 0.3 1 WORLD_BOUNDS airborneHookRefs
           initialMesh).
  - lra.
  - reflexivity.
  - reflexivity.
Defined.

Lemma mesh_same_position (m : Mesh) :
  set_position (Vec3 (vx (position m)) (vy (position m)) (vz (position m))) m
  = m.
Proof. now destruct m as [[x y z] r i n]. Qed.

(** X21: the movement flag of the hook is sound: when a frame leaves
    [movementOccurred] down, the mesh, the jump state and the velocity
    are exactly what they were, and [consumeJumpAttempt] was not
    called. *)
Theorem hook_flag_down_means_unchanged
    (F G J Y : R) (b : Bounds) (cameraAngle : R)
    (inputState : PlayerInputState) (h : HookRefs) :
  let r := Hook.updatePlayerMovement F G J Y b cameraAngle inputState h in
  h_movementOccurred (fst r) = false ->
  h_playerRef (fst r) = h_playerRef h /\
  h_isJumping (fst r) = h_isJumping h /\
  h_jumpVelocity (fst r) = h_jumpVelocity h /\
  snd r = false.
Proof.
  intros r. subst r. unfold Hook.updatePlayerMovement.
  destruct (h_playerRef h) as [m|] eqn:Hm; [|cbn; auto].
  cbv zeta.
  repeat match goal with
  | |- context [if ?c then _ else _] => destruct c
  end;
  cbn [fst snd h_playerRef h_isJumping h_jumpVelocity h_movementOccurred
       orb];
  intros Hflag; try discriminate Hflag;
  rewrite ?mesh_same_position; auto.
Qed.

Lemma hook_idle_flag_down :
  h_movementOccurred
    (fst (Hook.updatePlayerMovement 0.15 0.015 0.3 1 WORLD_BOUNDS 0.7
            idleInput initialHookRefs)) = false.
Proof.
  unfold Hook.updatePlayerMovement, initialHookRefs, idleInput.
  cbn -[Rplus Rminus Rmult Rdiv Ropp Rinv IZR sin cos PI boundX boundZ
        JS.neq JS.gt JS.le JS.rem JS.Math_atan2 JS.Math_abs].
  js_cmp. reflexivity.
Qed.

Lemma hook_flag_down_means_unchanged_witness :
  let r := Hook.updatePlayerMovement 0.15 0.015 0.3 1 WORLD_BOUNDS 0.7
             idleInput initialHookRefs in
  h_playerRef (fst r) = h_playerRef initialHookRefs /\
  h_isJumping (fst r) = h_isJumping initialHookRefs /\
  h_jumpVelocity (fst r) = h_jumpVelocity initialHookRefs /\
  snd r = false.
Proof.
  apply (hook_flag_down_means_unchanged 0.15 0.015 0.3 1 WORLD_BOUNDS 0.7
           idleInput initialHookRefs).
  exact hook_idle_flag_down.
Defined.

(** ** More on the guard *)

(** X22: the guard raises exactly on a history of fewer than two
    samples; on two samples or more it always returns. *)
Theorem guard_raises_iff_short (s : Refs) :
  detectAnomalousMovement s = None
  <-> (List.length (positionHistory s) < 2)%nat.
Proof.
  unfold detectAnomalousMovement. split.
  - intros Hnone.
    destruct (Nat.lt_ge_cases (List.length (positionHistory s)) 2)
      as [|Hge]; [assumption|].
    exfalso.
    destruct (lookup_lt_is_Some_2 (positionHistory s)
                (Z.to_nat (JS.len (positionHistory s) - 1)))
      as [latest Hl]; [unfold JS.len; lia|].
    destruct (lookup_lt_is_Some_2 (positionHistory s)
                (Z.to_nat (JS.len (positionHistory s) - 2)))
      as [previous Hq]; [unfold JS.len; lia|].
    rewrite (proj2 (index_Some _ _ latest)) in Hnone
      by (split; [unfold JS.len; lia | exact Hl]).
    rewrite (proj2 (index_Some _ _ previous)) in Hnone
      by (split; [unfold JS.len; lia | exact Hq]).
    destruct (JS.gt _ 0); [|discriminate].
    destruct (playerRef s); [|discriminate].
    destruct (JS.gt _ ANOMALOUS_SPEED_THRESHOLD); [|discriminate].
    destruct (JS.gt _ (MOVEMENT_SPEED * 2)); discriminate.
  - intros Hlt.
    assert (Hnone : JS.index (positionHistory s)
                      (JS.len (positionHistory s) - 2) = None).
    { unfold JS.index, JS.len.
      destruct (Z.ltb_spec (Z.of_nat (List.length (positionHistory s)) - 2) 0);
        [reflexivity | lia]. }
    rewrite Hnone.
    destruct (JS.index (positionHistory s) (JS.len (positionHistory s) - 1));
      reflexivity.
Qed.

Lemma map_insert_same {A B} (f : A -> B) (l : list A) :
  forall i x y,
    l !! i = Some y -> f x = f y ->
    List.map f (<[ i := x ]> l) = List.map f l.
Proof.
  induction l as [|a l IH]; intros i x y Hl Hf; [reflexivity|].
  destruct i as [|i]; cbn in *.
  - injection Hl as ->. now rewrite Hf.
  - f_equal. now apply (IH i x y).
Qed.

(** X23: the guard touches nothing but the x and z of the latest sample
    and of the mesh: the history keeps its length, its time stamps and
    every sample before the last, the mesh keeps its height, and the
    registry, the throttle state and the zone are as they were. *)
Theorem guard_frame (s s' : Refs) :
  detectAnomalousMovement s = Some s' ->
  List.length (positionHistory s') = List.length (positionHistory s) /\
  List.map s_time (positionHistory s') = List.map s_time (positionHistory s) /\
  (forall i, (i + 1 < List.length (positionHistory s))%nat ->
     positionHistory s' !! i = positionHistory s !! i) /\
  option_map (fun m => vy (position m)) (playerRef s')
  = option_map (fun m => vy (position m)) (playerRef s) /\
  playersRef s' = playersRef s /\
  lastSentPosition s' = lastSentPosition s /\
  lastSendTime s' = lastSendTime s /\
  movementChanged s' = movementChanged s /\
  currentZone s' = currentZone s.
Proof.
  intros Hs. unfold detectAnomalousMovement in Hs.
  destruct (JS.index (positionHistory s) (JS.len (positionHistory s) - 1))
    as [latest|] eqn:Hl; [|discriminate].
  destruct (JS.index (positionHistory s) (JS.len (positionHistory s) - 2))
    as [previous|] eqn:Hp; [|discriminate].
  destruct (JS.gt _ 0); [|injection Hs as <-; repeat split; auto].
  destruct (playerRef s) as [player|] eqn:Hplayer;
    [|injection Hs as <-; rewrite Hplayer; repeat split; auto].
  destruct (JS.gt _ ANOMALOUS_SPEED_THRESHOLD);
    [|injection Hs as <-; rewrite Hplayer; repeat split; auto].
  destruct (JS.gt _ (MOVEMENT_SPEED * 2));
    [|injection Hs as <-; rewrite Hplayer; repeat split; auto].
  injection Hs as <-.
  apply index_Some in Hl as [Hl0 Hl].
  cbn [positionHistory set_positionHistory playerRef set_playerRef
       playersRef lastSentPosition lastSendTime movementChanged currentZone
       option_map position set_position vy].
  split; [apply length_insert|]. split.
  - now apply (map_insert_same s_time _ _ _ latest).
  - split; [|repeat split; auto].
    intros i Hi. apply list_lookup_insert_ne. unfold JS.len. lia.
Qed.

Lemma guard_frame_witness :
  List.length (positionHistory cappedRefs)
  = List.length (positionHistory jumpRefs) /\
  List.map s_time (positionHistory cappedRefs)
  = List.map s_time (positionHistory jumpRefs) /\
  (forall i, (i + 1 < List.length (positionHistory jumpRefs))%nat ->
     positionHistory cappedRefs !! i = positionHistory jumpRefs !! i) /\
  option_map (fun m => vy (position m)) (playerRef cappedRefs)
  = option_map (fun m => vy (position m)) (playerRef jumpRefs) /\
  playersRef cappedRefs = playersRef jumpRefs /\
  lastSentPosition cappedRefs = lastSentPosition jumpRefs /\
  lastSendTime cappedRefs = lastSendTime jumpRefs /\
  movementChanged cappedRefs = movementChanged jumpRefs /\
  currentZone cappedRefs = currentZone jumpRefs.
Proof.
  apply (guard_frame jumpRefs cappedRefs). exact guard_caps_jump.
Defined.

(** X24: in binary64, whatever the history holds, the guard either
    leaves the state as it is or, the pair having failed its test, writes
    one and the same x and z to the mesh and to the latest sample,
    keeping the height of the one and the time stamp of the other; and
    neither of the two is a number below the minimum or above the
    maximum of WORLD_BOUNDS. *)
Theorem guard_writes_not_outside (s s' : Binary64.Refs) :
  Binary64.detectAnomalousMovement s = Some s' ->
  s' = s \/
  (Binary64.pairPasses s = false /\
   exists x z position latest,
     Binary64.playerRef s = Some position /\
     JS.index (Binary64.positionHistory s)
              (JS.len (Binary64.positionHistory s) - 1) = Some latest /\
     Binary64.playerRef s'
     = Some (Binary64.Vec3 x (Binary64.vy position) z) /\
     JS.index (Binary64.positionHistory s')
              (JS.len (Binary64.positionHistory s') - 1)
     = Some {| Binary64.s_x := x; Binary64.s_z := z;
               Binary64.s_time := Binary64.s_time latest |} /\
     Binary64.notOutside x z).
Proof.
  unfold Binary64.detectAnomalousMovement, Binary64.pairPasses.
  destruct (JS.index _ (JS.len _ - 1)) as [latest|] eqn:Hl; [|discriminate].
  destruct (JS.index _ (JS.len _ - 2)) as [previous|]; [|discriminate].
  cbv zeta.
  destruct (PrimFloat.ltb _ (PrimFloat.div (PrimFloat.sub _ _) _)); [|intros [= <-]; now left].
  destruct (Binary64.playerRef s) as [position|]; [|intros [= <-]; now left].
  destruct (PrimFloat.ltb Binary64.ANOMALOUS_SPEED_THRESHOLD _);
    [|intros [= <-]; now left].
  destruct (PrimFloat.ltb (PrimFloat.mul Binary64.MOVEMENT_SPEED _) _);
    [|intros [= <-]; now left].
  intros [= <-]. right. split; [reflexivity|].
  eexists _, _, position, latest.
  split; [reflexivity|]. split; [reflexivity|]. split; [reflexivity|].
  apply index_Some in Hl as [Hl0 Hl]. split.
  - cbn [Binary64.positionHistory]. rewrite len_insert.
    apply index_Some. split; [exact Hl0|].
    apply list_lookup_insert_eq. now apply lookup_lt_Some in Hl.
  - unfold Binary64.notOutside.
    match goal with
    | |- context [Binary64.Math_max Binary64.minX
                    (Binary64.Math_min Binary64.maxX ?cx)] =>
      pose proof (clamp_notOutside cx) as [Hx1 Hx2]
    end.
    match goal with
    | |- context [Binary64.Math_max Binary64.minZ
                    (Binary64.Math_min Binary64.maxZ ?cz)] =>
      pose proof (clamp_notOutside cz) as [Hz1 Hz2]
    end.
    auto.
Qed.

Lemma guard_writes_not_outside_witness :
  Binary64.cappedOnce = Binary64.leapRefs \/
  (Binary64.pairPasses Binary64.leapRefs = false /\
   exists x z position latest,
     Binary64.playerRef Binary64.leapRefs = Some position /\
     JS.index (Binary64.positionHistory Binary64.leapRefs)
              (JS.len (Binary64.positionHistory Binary64.leapRefs) - 1)
     = Some latest /\
     Binary64.playerRef Binary64.cappedOnce
     = Some (Binary64.Vec3 x (Binary64.vy position) z) /\
     JS.index (Binary64.positionHistory Binary64.cappedOnce)
              (JS.len (Binary64.positionHistory Binary64.cappedOnce) - 1)
     = Some {| Binary64.s_x := x; Binary64.s_z := z;
               Binary64.s_time := Binary64.s_time latest |} /\
     Binary64.notOutside x z).
Proof.
  apply (guard_writes_not_outside Binary64.leapRefs Binary64.cappedOnce).
  vm_compute. reflexivity.
Defined.

(** ** Chat messages and the older registry *)

(** X25: a chat message shows a bubble for its sender only.  From the
    local player, when it has a mesh, or from a registered player, the
    bubble is there after every sweep up to ten seconds later and gone
    after any later sweep; from any other sender the message changes
    nothing; the bubbles of the other players are never touched. *)
Theorem chatMessage_bubble
    (socket_id : option string) (now now' : R) (playerId : string)
    (s : Refs) (chatBubbles : gmap string R) :
  let known :=
    bool_decide (Some playerId = socket_id)
    && bool_decide (is_Some (playerRef s))
    || negb (String.eqb playerId "")
       && bool_decide (is_Some (playersRef s !! playerId)) in
  (forall j, j <> playerId ->
     Chat.chatMessage socket_id now playerId s chatBubbles !! j
     = chatBubbles !! j) /\
  (if known
   then Chat.sweep now'
          (Chat.chatMessage socket_id now playerId s chatBubbles) !! playerId
        = (if JS.gt now' (now + 10000) then None else Some (now + 10000))
   else Chat.chatMessage socket_id now playerId s chatBubbles = chatBubbles).
Proof.
  intros known. subst known. unfold Chat.chatMessage.
  destruct (bool_decide (Some playerId = socket_id)
            && bool_decide (is_Some (playerRef s))),
    (negb (String.eqb playerId "")
     && bool_decide (is_Some (playersRef s !! playerId)));
    cbn [orb]; (split; [|try reflexivity]);
    try (intros j Hj; unfold Chat.createChatBubble;
         now rewrite ?lookup_insert_ne, ?lookup_delete_ne by congruence);
    rewrite sweep_lookup; unfold Chat.createChatBubble;
    now rewrite lookup_insert_eq.
Qed.

(** X26: in components/GameCanvas.tsx a join of an unregistered id
    followed by the departure of that id leaves the refs as they were,
    and a join of a registered id keeps the keys of the registry: it
    moves the mesh to the position of the event and renames it, keeping
    its yaw and its [userData.playerId]. *)
Theorem legacy_join_and_leave (player : Player) (s : Refs) :
  (playersRef s !! p_id player = None ->
   LegacySocket.playerLeft (p_id player)
     (LegacySocket.playerJoined player s) = s) /\
  (forall m, playersRef s !! p_id player = Some m ->
     dom (playersRef (LegacySocket.playerJoined player s))
     = dom (playersRef s) /\
     playersRef (LegacySocket.playerJoined player s) !! p_id player
     = Some {| position := Vec3 (p_x player) (p_y player) (p_z player);
               rotation_y := rotation_y m;
               userData_playerId := userData_playerId m;
               userData_playerName := Some (p_name player) |}).
Proof.
  unfold LegacySocket.playerLeft, LegacySocket.playerJoined. split.
  - intros Hnone. rewrite Hnone. unfold LegacySocket.createPlayerMesh.
    cbn [playersRef set_playersRef]. rewrite lookup_insert_eq.
    rewrite delete_insert_eq, (delete_id _ _ Hnone).
    rewrite set_playersRef_twice. apply refs_same_registry.
  - intros m Hm. rewrite Hm. cbn [playersRef set_playersRef]. split.
    + rewrite dom_insert_L. apply elem_of_dom_2 in Hm. set_solver.
    + apply lookup_insert_eq.
Qed.
